(** * Counting Bloom filter ([counting.go]): a shallow embedding

    The filter of [counting.go] is embedded as state-passing functions in the
    option monad: [None] is a Go run-time panic (integer division by zero in
    [% c.m], an index out of range), [Some] carries the returned value and the
    filter after the call.  Go's [uint] is 32 or 64 bits wide depending on the
    target, so every [uint] operation is written with its wrap-around for an
    explicit [arch]. *)

From Stdlib Require Import ZArith QArith Lia List.
From Stdlib.Strings Require Import Byte String.
From stdpp Require Import base option list.

Local Open Scope Z_scope.

(** ** Machine integers *)

Inductive arch : Set := arch32 | arch64.

Definition uint_bits (a : arch) : Z :=
  match a with arch32 => 32 | arch64 => 64 end.

Definition uint_modulus (a : arch) : Z := 2 ^ uint_bits a.

(** Conversion to [uint], and the value a [uint] expression wraps to. *)
Definition to_uint (a : arch) (z : Z) : Z := z mod uint_modulus a.

Definition uint_add (a : arch) (x y : Z) : Z := to_uint a (x + y).
Definition uint_mul (a : arch) (x y : Z) : Z := to_uint a (x * y).

(** [x % y] on [uint]: Go panics when the divisor is zero. *)
Definition uint_rem (x y : Z) : option Z :=
  if y =? 0 then None else Some (x mod y).

Definition to_uint64 (z : Z) : Z := z mod 2 ^ 64.
Definition to_byte (z : Z) : Z := z mod 2 ^ 8.

(** ** The hash: [hash/fnv]'s [New64] (FNV-1, 64 bits)

    The state of the hash is the running 64-bit sum. *)

Definition offset64 : Z := 14695981039346656037.
Definition prime64 : Z := 1099511628211.

Definition fnv_New64 : Z := offset64.

Definition fnv_Write (s : Z) (data : list byte) : Z :=
  fold_left
    (fun h c => Z.lxor (to_uint64 (h * prime64)) (Z.of_N (Byte.to_N c)))
    data s.

Definition fnv_Sum (s : Z) (into : list Z) : list Z :=
  into ++ [ to_byte (Z.shiftr s 56); to_byte (Z.shiftr s 48);
            to_byte (Z.shiftr s 40); to_byte (Z.shiftr s 32);
            to_byte (Z.shiftr s 24); to_byte (Z.shiftr s 16);
            to_byte (Z.shiftr s 8); to_byte s ].

Definition fnv_Reset (s : Z) : Z := offset64.

(** [s[lo:hi]] on a slice. *)
Definition slice {A} (s : list A) (lo hi : nat) : list A :=
  take (hi - lo) (drop lo s).

(** [binary.BigEndian.Uint32]: reads four bytes, panics on a shorter slice. *)
Definition BigEndian_Uint32 (s : list Z) : option Z :=
  match s with
  | b0 :: b1 :: b2 :: b3 :: _ =>
      Some (Z.lor (Z.lor (Z.lor b3 (Z.shiftl b2 8)) (Z.shiftl b1 16))
                  (Z.shiftl b0 24))
  | _ => None
  end.

(** ** Buckets *)

(** Modelled from the spec: the type [Buckets] and its methods [NewBuckets],
    [Get], [Increment] and [Reset] are not part of [counting.go].  The spec
    describes [m] counters of [b] bits whose values lie in [[0, 2^b - 1]];
    [Get] fails on an index out of range, [Increment] adds a signed delta and
    clamps the result to [2^b - 1] above and to [0] below, [Reset] zeroes
    every counter.  The packing of the counters into bytes is not modelled:
    the storage is the list of the counter values. *)
Record Buckets : Set := mkBuckets {
  bucketCount : Z;
  bucketWidth : Z;
  counters : list Z
}.

Definition Buckets_max (bs : Buckets) : Z := 2 ^ bucketWidth bs - 1.

Definition NewBuckets (cnt width : Z) : Buckets :=
  {| bucketCount := cnt; bucketWidth := width;
     counters := replicate (Z.to_nat cnt) 0 |}.

Definition Buckets_Get (bs : Buckets) (i : Z) : option Z :=
  if (0 <=? i) && (i <? bucketCount bs)
  then counters bs !! Z.to_nat i
  else None.

Definition clamp (hi v : Z) : Z :=
  if hi <? v then hi else if v <? 0 then 0 else v.

Definition Buckets_Increment (bs : Buckets) (i delta : Z) : option Buckets :=
  v ← Buckets_Get bs i;
  Some {| bucketCount := bucketCount bs; bucketWidth := bucketWidth bs;
          counters :=
            <[Z.to_nat i := clamp (Buckets_max bs) (v + delta)]> (counters bs) |}.

Definition Buckets_Reset (bs : Buckets) : Buckets :=
  {| bucketCount := bucketCount bs; bucketWidth := bucketWidth bs;
     counters := replicate (Z.to_nat (bucketCount bs)) 0 |}.

(** ** The filter *)

Record CountingBloomFilter : Set := mkFilter {
  buckets : Buckets;
  hash : Z;
  m : Z;
  k : Z;
  b : Z;
  count : Z;
  indexBuffer : list Z
}.

Definition set_buckets (c : CountingBloomFilter) (bs : Buckets) :=
  {| buckets := bs; hash := hash c; m := m c; k := k c; b := b c;
     count := count c; indexBuffer := indexBuffer c |}.

Definition set_hash (c : CountingBloomFilter) (h : Z) :=
  {| buckets := buckets c; hash := h; m := m c; k := k c; b := b c;
     count := count c; indexBuffer := indexBuffer c |}.

Definition set_count (c : CountingBloomFilter) (n : Z) :=
  {| buckets := buckets c; hash := hash c; m := m c; k := k c; b := b c;
     count := n; indexBuffer := indexBuffer c |}.

Definition set_indexBuffer (c : CountingBloomFilter) (buf : list Z) :=
  {| buckets := buckets c; hash := hash c; m := m c; k := k c; b := b c;
     count := count c; indexBuffer := buf |}.

Section Construction.
(** Modelled from the spec: the sizing helpers [OptimalM] and [OptimalK]
    are not part of [counting.go]; the spec calls them external
    collaborators.  They are taken as parameters, over an abstract type of
    [float64] values. *)
Variable float64 : Type.
Variable OptimalM : Z -> float64 -> Z.
Variable OptimalK : float64 -> Z.

(** The filter [NewCountingBloomFilter] returns when it returns; the call,
    with the run-time panic of [make([]uint, k)], is [construct] below. *)
Definition NewCountingBloomFilter (n : Z) (width : Z) (fpRate : float64)
  : CountingBloomFilter :=
  let m' := OptimalM n fpRate in
  let k' := OptimalK fpRate in
  {| buckets := NewBuckets m' width;
     hash := fnv_New64;
     m := m';
     k := k';
     b := width;
     count := 0;
     indexBuffer := replicate (Z.to_nat k') 0 |}.

Definition NewDefaultCountingBloomFilter (n : Z) (fpRate : float64)
  : CountingBloomFilter :=
  NewCountingBloomFilter n 4 fpRate.
End Construction.

Arguments NewCountingBloomFilter {float64} OptimalM OptimalK n width fpRate.
Arguments NewDefaultCountingBloomFilter {float64} OptimalM OptimalK n fpRate.

Definition Capacity (c : CountingBloomFilter) : Z := m c.
Definition K (c : CountingBloomFilter) : Z := k c.
Definition Count (c : CountingBloomFilter) : Z := count c.

(** [hashKernel]: one [Write], one [Sum], one [Reset]; the lower half of the
    digest is bytes 4..8 of the big-endian sum, the upper half bytes 0..4. *)
Definition hashKernel (c : CountingBloomFilter) (data : list byte)
  : option (Z * Z * CountingBloomFilter) :=
  let c1 := set_hash c (fnv_Write (hash c) data) in
  let sum := fnv_Sum (hash c1) [] in
  let c2 := set_hash c1 (fnv_Reset (hash c1)) in
  lower ← BigEndian_Uint32 (slice sum 4 8);
  upper ← BigEndian_Uint32 (slice sum 0 4);
  Some (lower, upper, c2).

(** The index expression [(uint(lower)+uint(upper)*i)%c.m]. *)
Definition bucket_index (a : arch) (lower upper i mm : Z) : option Z :=
  uint_rem (uint_add a (to_uint a lower) (uint_mul a (to_uint a upper) i)) mm.

Section Operations.
Variable a : arch.

(** The loop of [Test]: [n] rounds are left, the next one is round [i]. *)
Fixpoint Test_loop (c : CountingBloomFilter) (lower upper : Z)
    (n : nat) (i : Z) : option bool :=
  match n with
  | O => Some true
  | S n' =>
      idx ← bucket_index a lower upper i (m c);
      v ← Buckets_Get (buckets c) idx;
      if v =? 0 then Some false
      else Test_loop c lower upper n' (i + 1)
  end.

Definition Test (c : CountingBloomFilter) (data : list byte)
  : option (bool * CountingBloomFilter) :=
  '(lower, upper, c1) ← hashKernel c data;
  r ← Test_loop c1 lower upper (Z.to_nat (k c1)) 0;
  Some (r, c1).

Fixpoint Add_loop (mm lower upper : Z) (n : nat) (i : Z) (bs : Buckets)
  : option Buckets :=
  match n with
  | O => Some bs
  | S n' =>
      idx ← bucket_index a lower upper i mm;
      bs' ← Buckets_Increment bs idx 1;
      Add_loop mm lower upper n' (i + 1) bs'
  end.

Definition Add (c : CountingBloomFilter) (data : list byte)
  : option CountingBloomFilter :=
  '(lower, upper, c1) ← hashKernel c data;
  bs ← Add_loop (m c1) lower upper (Z.to_nat (k c1)) 0 (buckets c1);
  let c2 := set_buckets c1 bs in
  Some (set_count c2 (uint_add a (count c2) 1)).

Fixpoint TestAndAdd_loop (mm lower upper : Z) (n : nat) (i : Z)
    (member : bool) (bs : Buckets) : option (bool * Buckets) :=
  match n with
  | O => Some (member, bs)
  | S n' =>
      idx ← bucket_index a lower upper i mm;
      v ← Buckets_Get bs idx;
      let member' := if v =? 0 then false else member in
      bs' ← Buckets_Increment bs idx 1;
      TestAndAdd_loop mm lower upper n' (i + 1) member' bs'
  end.

Definition TestAndAdd (c : CountingBloomFilter) (data : list byte)
  : option (bool * CountingBloomFilter) :=
  '(lower, upper, c1) ← hashKernel c data;
  '(member, bs) ← TestAndAdd_loop (m c1) lower upper (Z.to_nat (k c1)) 0
                    true (buckets c1);
  let c2 := set_buckets c1 bs in
  Some (member, set_count c2 (uint_add a (count c2) 1)).

(** [c.indexBuffer[i] = v]: panics when [i] is out of range. *)
Definition store (buf : list Z) (i v : Z) : option (list Z) :=
  if (0 <=? i) && (i <? Z.of_nat (length buf))
  then Some (<[Z.to_nat i := v]> buf)
  else None.

Definition load (buf : list Z) (i : Z) : option Z :=
  if (0 <=? i) && (i <? Z.of_nat (length buf))
  then buf !! Z.to_nat i
  else None.

(** First loop of [TestAndRemove]: stages the indices, reads the buckets. *)
Fixpoint TestAndRemove_scan (mm lower upper : Z) (bs : Buckets)
    (n : nat) (i : Z) (member : bool) (buf : list Z)
  : option (bool * list Z) :=
  match n with
  | O => Some (member, buf)
  | S n' =>
      idx ← bucket_index a lower upper i mm;
      buf' ← store buf i idx;
      idx' ← load buf' i;
      v ← Buckets_Get bs idx';
      let member' := if v =? 0 then false else member in
      TestAndRemove_scan mm lower upper bs n' (i + 1) member' buf'
  end.

(** Second loop: [for _, idx := range c.indexBuffer]. *)
Fixpoint TestAndRemove_drain (buf : list Z) (bs : Buckets)
  : option Buckets :=
  match buf with
  | [] => Some bs
  | idx :: rest =>
      bs' ← Buckets_Increment bs idx (-1);
      TestAndRemove_drain rest bs'
  end.

Definition TestAndRemove (c : CountingBloomFilter) (data : list byte)
  : option (bool * CountingBloomFilter) :=
  '(lower, upper, c1) ← hashKernel c data;
  '(member, buf) ← TestAndRemove_scan (m c1) lower upper (buckets c1)
                     (Z.to_nat (k c1)) 0 true (indexBuffer c1);
  let c2 := set_indexBuffer c1 buf in
  if (member : bool) then
    bs ← TestAndRemove_drain (indexBuffer c2) (buckets c2);
    let c3 := set_buckets c2 bs in
    Some (member, set_count c3 (to_uint a (count c3 - 1)))
  else Some (member, c2).

Definition Reset (c : CountingBloomFilter) : CountingBloomFilter :=
  set_count (set_buckets c (Buckets_Reset (buckets c))) 0.

(** *** Saturation of an [Add]

    A counter saturates when an increment is refused: the bucket already
    holds the largest value of its width and [Increment] leaves it there. *)
Definition Increment_refused (bs : Buckets) (idx : Z) : bool :=
  match Buckets_Get bs idx with
  | Some v => Buckets_max bs <? v + 1
  | None => false
  end.

(** Follows [Add_loop] and tells whether one of its increments is refused. *)
Fixpoint Add_loop_saturates (mm lower upper : Z) (n : nat) (i : Z)
    (bs : Buckets) : bool :=
  match n with
  | O => false
  | S n' =>
      match bucket_index a lower upper i mm with
      | Some idx =>
          Increment_refused bs idx
          || match Buckets_Increment bs idx 1 with
             | Some bs' => Add_loop_saturates mm lower upper n' (i + 1) bs'
             | None => false
             end
      | None => false
      end
  end.

Definition Add_saturates (c : CountingBloomFilter) (data : list byte)
  : bool :=
  match hashKernel c data with
  | Some (lower, upper, c1) =>
      Add_loop_saturates (m c1) lower upper (Z.to_nat (k c1)) 0 (buckets c1)
  | None => false
  end.

(** *** Sequences of calls *)

Fixpoint Adds (c : CountingBloomFilter) (xs : list (list byte))
  : option CountingBloomFilter :=
  match xs with
  | [] => Some c
  | x :: xs' => c' ← Add c x; Adds c' xs'
  end.

Fixpoint Adds_saturate (c : CountingBloomFilter) (xs : list (list byte))
  : bool :=
  match xs with
  | [] => false
  | x :: xs' =>
      Add_saturates c x
      || match Add c x with
         | Some c' => Adds_saturate c' xs'
         | None => false
         end
  end.

(** [Test] followed by [Add], as two calls. *)
Definition Test_then_Add (c : CountingBloomFilter) (data : list byte)
  : option (bool * CountingBloomFilter) :=
  '(r, c1) ← Test c data;
  c2 ← Add c1 data;
  Some (r, c2).

(** The public operations that reach the filter's state, and a call of one
    of them: the value it returns (if it is a boolean) and the filter
    after it. *)
Inductive op : Set :=
| OpTest (data : list byte)
| OpAdd (data : list byte)
| OpTestAndAdd (data : list byte)
| OpTestAndRemove (data : list byte)
| OpReset.

Definition call (c : CountingBloomFilter) (o : op)
  : option (option bool * CountingBloomFilter) :=
  match o with
  | OpTest data => '(r, c') ← Test c data; Some (Some r, c')
  | OpAdd data => c' ← Add c data; Some (None, c')
  | OpTestAndAdd data => '(r, c') ← TestAndAdd c data; Some (Some r, c')
  | OpTestAndRemove data =>
      '(r, c') ← TestAndRemove c data; Some (Some r, c')
  | OpReset => Some (None, Reset c)
  end.

(** Runs the calls in order; the trace pairs every call with what it
    returned. *)
Fixpoint run (c : CountingBloomFilter) (os : list op)
  : option (list (op * option bool) * CountingBloomFilter) :=
  match os with
  | [] => Some ([], c)
  | o :: os' =>
      '(r, c1) ← call c o;
      '(tr, c2) ← run c1 os';
      Some ((o, r) :: tr, c2)
  end.
End Operations.

(** ** Counting the calls of a trace *)

Definition is_add (e : op * option bool) : bool :=
  match e with
  | (OpAdd _, _) | (OpTestAndAdd _, _) => true
  | _ => false
  end.

Definition is_removal (e : op * option bool) : bool :=
  match e with
  | (OpTestAndRemove _, Some true) => true
  | _ => false
  end.

Definition is_reset (e : op * option bool) : bool :=
  match e with
  | (OpReset, _) => true
  | _ => false
  end.

Definition adds_performed (tr : list (op * option bool)) : Z :=
  Z.of_nat (length (filter (fun e => is_add e = true) tr)).

Definition removals_performed (tr : list (op * option bool)) : Z :=
  Z.of_nat (length (filter (fun e => is_removal e = true) tr)).

(** The count after a call, from the count before it. *)
Definition count_after (a : arch) (n : Z) (e : op * option bool) : Z :=
  if is_reset e then 0
  else if is_add e then to_uint a (n + 1)
  else if is_removal e then to_uint a (n - 1)
  else n.

(** The calls made after the last [Reset] of the trace (all of them when
    there is none). *)
Fixpoint since_reset (tr : list (op * option bool))
  : list (op * option bool) :=
  match tr with
  | [] => []
  | e :: tr' =>
      if existsb is_reset tr' then since_reset tr'
      else if is_reset e then tr' else e :: tr'
  end.

(** ** Outcome of a construction *)

(** [make([]uint, len)]: the Go run time panics ("makeslice: len out of
    range") when [len] elements of a [uint] take more than the largest
    allocation it accepts.  That bound is a constant of the run time for
    the target, not of this repository, and is the parameter [maxAlloc].
    An allocation the run time accepts is taken to succeed. *)
Definition make_uints (a : arch) (maxAlloc len : Z) : option (list Z) :=
  if (0 <=? len) && (len * (uint_bits a / 8) <=? maxAlloc)
  then Some (replicate (Z.to_nat len) 0)
  else None.

(** A call of [NewCountingBloomFilter], with the one failure the function
    has: the panic of [make([]uint, k)].  No argument is looked at before
    the sizing helpers are called, and none of their answers afterwards.
    When the call returns, it returns the filter [NewCountingBloomFilter]
    builds above. *)
Definition construct {float64 : Type} (a : arch) (maxAlloc : Z)
    (OptimalM : Z -> float64 -> Z) (OptimalK : float64 -> Z)
    (n width : Z) (fpRate : float64)
  : option CountingBloomFilter :=
  let m' := OptimalM n fpRate in
  let k' := OptimalK fpRate in
  buf ← make_uints a maxAlloc k';
  Some {| buckets := NewBuckets m' width;
          hash := fnv_New64;
          m := m';
          k := k';
          b := width;
          count := 0;
          indexBuffer := buf |}.



(** The filter the constructor returns when the sizing helpers answer [mm]
    and [kk]. *)
Definition fresh (mm kk width : Z) : CountingBloomFilter :=
  NewCountingBloomFilter (float64 := unit) (fun _ _ => mm) (fun _ => kk)
    0 width tt.

Definition bytes (s : string) : list byte := list_byte_of_string s.
Arguments bytes s%_string.

(** ** The indices of an element *)

(** The digest [hashKernel] computes for [data] on a reset hash, and its two
    halves. *)
Definition digest (data : list byte) : Z := fnv_Write offset64 data.
Definition lower_half (d : Z) : Z := d mod 2 ^ 32.
Definition upper_half (d : Z) : Z := d / 2 ^ 32.

(** Value of the index expression of round [i] when [mm] is not zero. *)
Definition index_at (a : arch) (mm lower upper i : Z) : Z :=
  ((lower + upper * i) mod uint_modulus a) mod mm.

Definition indices_from (a : arch) (mm lower upper i : Z) (n : nat) : list Z :=
  map (index_at a mm lower upper) (seqZ i (Z.of_nat n)).

(** The [k] indices of [data] in the filter [c]. *)
Definition indices (a : arch) (c : CountingBloomFilter) (data : list byte)
  : list Z :=
  indices_from a (m c) (lower_half (digest data)) (upper_half (digest data))
    0 (Z.to_nat (k c)).

(** The index of round [i] as the spec writes it: [(lower + upper*i) mod m],
    over the integers. *)
Definition spec_index (mm lower upper i : Z) : Z := (lower + upper * i) mod mm.

Definition spec_indices (c : CountingBloomFilter) (data : list byte) : list Z :=
  map (spec_index (m c) (lower_half (digest data)) (upper_half (digest data)))
      (seqZ 0 (k c)).

(** ** Bucket operations over a list of indices *)

(** Reads the buckets in order and stops at the first zero one. *)
Fixpoint all_nonzero (bs : Buckets) (idxs : list Z) : option bool :=
  match idxs with
  | [] => Some true
  | idx :: rest =>
      v ← Buckets_Get bs idx;
      if v =? 0 then Some false else all_nonzero bs rest
  end.

Fixpoint Increment_all (bs : Buckets) (idxs : list Z) (delta : Z)
  : option Buckets :=
  match idxs with
  | [] => Some bs
  | idx :: rest =>
      bs' ← Buckets_Increment bs idx delta;
      Increment_all bs' rest delta
  end.

(** Follows [Increment_all] by one and tells whether an increment is
    refused. *)
Fixpoint Increment_all_refused (bs : Buckets) (idxs : list Z) : bool :=
  match idxs with
  | [] => false
  | idx :: rest =>
      Increment_refused bs idx
      || match Buckets_Increment bs idx 1 with
         | Some bs' => Increment_all_refused bs' rest
         | None => false
         end
  end.

(** Reads every bucket before it is incremented, as [TestAndAdd] does. *)
Fixpoint test_add_all (bs : Buckets) (idxs : list Z) (member : bool)
  : option (bool * Buckets) :=
  match idxs with
  | [] => Some (member, bs)
  | idx :: rest =>
      v ← Buckets_Get bs idx;
      bs' ← Buckets_Increment bs idx 1;
      test_add_all bs' rest (if v =? 0 then false else member)
  end.

(** Reads every bucket, with no early exit, as [TestAndRemove] does. *)
Fixpoint scan_all (bs : Buckets) (idxs : list Z) (member : bool)
  : option bool :=
  match idxs with
  | [] => Some member
  | idx :: rest =>
      v ← Buckets_Get bs idx;
      scan_all bs rest (if v =? 0 then false else member)
  end.

(** Number of occurrences of [j] in [idxs]. *)
Definition occurrences (j : Z) (idxs : list Z) : Z :=
  Z.of_nat (length (filter (fun i => i = j) idxs)).

(** ** Well-formed states *)

Record Buckets_wf (bs : Buckets) : Prop := {
  wf_bucketCount : 0 <= bucketCount bs;
  wf_bucketWidth : 0 <= bucketWidth bs;
  wf_length : length (counters bs) = Z.to_nat (bucketCount bs);
  wf_range : Forall (fun v => 0 <= v <= Buckets_max bs) (counters bs)
}.

(** What the constructor establishes and every operation keeps. *)
Record filter_wf (a : arch) (c : CountingBloomFilter) : Prop := {
  wf_buckets : Buckets_wf (buckets c);
  wf_m : bucketCount (buckets c) = m c;
  wf_b : bucketWidth (buckets c) = b c;
  wf_hash : hash c = offset64;
  wf_k : 0 <= k c;
  wf_indexBuffer : length (indexBuffer c) = Z.to_nat (k c);
  wf_count : 0 <= count c < uint_modulus a
}.


(** No call divides by zero: the filter has buckets, or no round to run. *)
Definition runnable (c : CountingBloomFilter) : Prop :=
  m c <> 0 \/ Z.to_nat (k c) = 0%nat.

(** Every bucket of [data] holds a value that is not zero. *)
Definition present (a : arch) (c : CountingBloomFilter) (data : list byte)
  : Prop :=
  forall j, In j (indices a c data) ->
    exists v, Buckets_Get (buckets c) j = Some v /\ v <> 0.

(** [y] shares all the buckets of [x]: every index of [x] is one of [y]. *)
Definition shares_all_buckets (a : arch) (c : CountingBloomFilter)
    (y x : list byte) : Prop :=
  forall j, In j (indices a c x) -> In j (indices a c y).

(** * Properties *)

(** ** Machine integers and the hash *)

Lemma uint_modulus_pos (a : arch) : 0 < uint_modulus a.
Proof. by destruct a. Qed.

Lemma uint_modulus_ge (a : arch) : 2 ^ 32 <= uint_modulus a.
Proof. by destruct a. Qed.

Lemma to_uint_range (a : arch) (z : Z) : 0 <= to_uint a z < uint_modulus a.
Proof. apply Z.mod_pos_bound, uint_modulus_pos. Qed.

Lemma to_uint_small (a : arch) (z : Z) :
  0 <= z < uint_modulus a -> to_uint a z = z.
Proof. apply Z.mod_small. Qed.

Lemma log2_lt (n x : Z) : 0 < n -> 0 <= x < 2 ^ n -> Z.log2 x < n.
Proof.
  intros Hn Hx. destruct (Z.eq_dec x 0) as [->|Hne]; [simpl; lia|].
  assert (Hpos : 0 < x) by lia.
  apply (proj1 (Z.log2_lt_pow2 x n Hpos)). lia.
Qed.

Lemma lxor_range (n x y : Z) :
  0 < n -> 0 <= x < 2 ^ n -> 0 <= y < 2 ^ n -> 0 <= Z.lxor x y < 2 ^ n.
Proof.
  intros Hn Hx Hy.
  assert (Hnn : 0 <= Z.lxor x y) by (apply Z.lxor_nonneg; lia).
  split; [done|].
  destruct (Z.eq_dec (Z.lxor x y) 0) as [->|Hne];
    [apply Z.pow_pos_nonneg; lia|].
  assert (Hpos : 0 < Z.lxor x y) by lia.
  apply (proj2 (Z.log2_lt_pow2 _ n Hpos)).
  pose proof (Z.log2_lxor x y ltac:(lia) ltac:(lia)) as Hl.
  pose proof (log2_lt n x Hn Hx). pose proof (log2_lt n y Hn Hy). lia.
Qed.

Lemma byte_range (c : byte) : 0 <= Z.of_N (Byte.to_N c) < 2 ^ 64.
Proof. by destruct c. Qed.

Lemma fnv_Write_range (s : Z) (data : list byte) :
  0 <= s < 2 ^ 64 -> 0 <= fnv_Write s data < 2 ^ 64.
Proof.
  unfold fnv_Write. revert s.
  induction data as [|c data IH]; intros s Hs; simpl; [done|].
  apply IH, lxor_range; [lia| |apply byte_range].
  apply Z.mod_pos_bound. lia.
Qed.

Lemma digest_range (data : list byte) : 0 <= digest data < 2 ^ 64.
Proof. apply fnv_Write_range. by compute. Qed.

Lemma lower_half_range (d : Z) : 0 <= lower_half d < 2 ^ 32.
Proof. apply Z.mod_pos_bound. lia. Qed.

Lemma upper_half_range (d : Z) : 0 <= d < 2 ^ 64 -> 0 <= upper_half d < 2 ^ 32.
Proof.
  intros Hd. unfold upper_half. split.
  - apply Z.div_pos; lia.
  - apply Z.div_lt_upper_bound; [lia|].
    change (2 ^ 32 * 2 ^ 32) with (2 ^ 64). lia.
Qed.

Lemma halves_digest (d : Z) : d = upper_half d * 2 ^ 32 + lower_half d.
Proof.
  unfold upper_half, lower_half.
  pose proof (Z.div_mod d (2 ^ 32) ltac:(lia)). lia.
Qed.

(** Bit [n] of the byte taken at offset [s] of [d] and put back at offset
    [j]. *)
Lemma testbit_byte_at (d s j n : Z) :
  0 <= n -> 0 <= s -> 0 <= j ->
  Z.testbit (Z.shiftl (to_byte (Z.shiftr d s)) j) n
  = (j <=? n) && (n <? j + 8) && Z.testbit d (n - j + s).
Proof.
  intros Hn Hs Hj. unfold to_byte.
  destruct (Z.leb_spec j n) as [Hle|Hlt]; simpl.
  - rewrite Z.shiftl_spec by lia.
    rewrite Z.testbit_mod_pow2 by lia.
    rewrite Z.shiftr_spec by lia.
    destruct (Z.ltb_spec (n - j) 8), (Z.ltb_spec n (j + 8)); simpl; done || lia.
  - rewrite Z.shiftl_spec by lia. by rewrite Z.testbit_neg_r by lia.
Qed.

Lemma testbit_above (d n : Z) :
  0 <= d < 2 ^ 64 -> 64 <= n -> Z.testbit d n = false.
Proof.
  intros Hd Hn. rewrite <- (Z.mod_small d (2 ^ 64)) by lia.
  rewrite Z.testbit_mod_pow2 by lia.
  by rewrite (proj2 (Z.ltb_ge n 64)) by lia.
Qed.

(** Settles the comparisons of the goal from the bounds in the context. *)
Ltac settle_cmp :=
  repeat match goal with
    | |- context [?x <=? ?y] =>
        first [ rewrite (proj2 (Z.leb_le x y)) by lia
              | rewrite (proj2 (Z.leb_gt x y)) by lia ]
    | |- context [?x <? ?y] =>
        first [ rewrite (proj2 (Z.ltb_lt x y)) by lia
              | rewrite (proj2 (Z.ltb_ge x y)) by lia ]
    end;
  cbn [andb orb]; rewrite ?orb_false_r.

Lemma byte_cases (n : Z) :
  0 <= n ->
  n < 8 \/ 8 <= n < 16 \/ 16 <= n < 24 \/ 24 <= n < 32 \/ 32 <= n.
Proof. lia. Qed.

Lemma BigEndian_lower (d : Z) :
  BigEndian_Uint32 (slice (fnv_Sum d []) 4 8) = Some (lower_half d).
Proof.
  unfold fnv_Sum, slice, lower_half; simpl. f_equal.
  apply Z.bits_inj'; intros n Hn.
  change (to_byte d) with (Z.shiftl (to_byte (Z.shiftr d 0)) 0).
  rewrite !Z.lor_spec, !testbit_byte_at, Z.testbit_mod_pow2 by lia.
  destruct (byte_cases n Hn) as [H|[H|[H|[H|H]]]];
    settle_cmp; try done; f_equal; lia.
Qed.

Lemma BigEndian_upper (d : Z) :
  0 <= d < 2 ^ 64 ->
  BigEndian_Uint32 (slice (fnv_Sum d []) 0 4) = Some (upper_half d).
Proof.
  intros Hd. unfold fnv_Sum, slice, upper_half; simpl. f_equal.
  apply Z.bits_inj'; intros n Hn.
  change (to_byte (Z.shiftr d 32))
    with (Z.shiftl (to_byte (Z.shiftr d 32)) 0).
  rewrite <- Z.shiftr_div_pow2 by lia.
  rewrite !Z.lor_spec, !testbit_byte_at, Z.shiftr_spec by lia.
  destruct (byte_cases n Hn) as [H|[H|[H|[H|H]]]];
    settle_cmp; try (f_equal; lia).
  symmetry. apply testbit_above; [done|lia].
Qed.

(** [hashKernel] never panics and leaves the hash reset. *)
Lemma hashKernel_Some (c : CountingBloomFilter) (data : list byte) :
  exists lower upper,
    hashKernel c data = Some (lower, upper, set_hash c offset64).
Proof. unfold hashKernel, fnv_Sum, slice; simpl. eauto. Qed.

(** On a reset hash the two results are the halves of the digest. *)
Lemma hashKernel_digest (c : CountingBloomFilter) (data : list byte) :
  hash c = offset64 ->
  hashKernel c data
  = Some (lower_half (digest data), upper_half (digest data), c).
Proof.
  intros Hh. unfold hashKernel.
  cbn [hash set_hash]. rewrite Hh. fold (digest data).
  rewrite BigEndian_lower, (BigEndian_upper _ (digest_range data)).
  simpl. do 2 f_equal. destruct c; simpl in *. by subst.
Qed.

(** ** Buckets *)

Lemma Buckets_max_nonneg (bs : Buckets) :
  0 <= bucketWidth bs -> 0 <= Buckets_max bs.
Proof.
  intros Hw. unfold Buckets_max.
  pose proof (Z.pow_pos_nonneg 2 (bucketWidth bs) ltac:(lia) Hw). lia.
Qed.

Lemma clamp_range (hi v : Z) : 0 <= hi -> 0 <= clamp hi v <= hi.
Proof.
  intros Hhi. unfold clamp.
  destruct (Z.ltb_spec hi v); [lia|]. destruct (Z.ltb_spec v 0); lia.
Qed.

Lemma clamp_up (hi v : Z) : 0 <= v <= hi -> clamp hi (v + 1) = Z.min hi (v + 1).
Proof.
  intros Hv. unfold clamp.
  destruct (Z.ltb_spec hi (v + 1)); [lia|]. destruct (Z.ltb_spec (v + 1) 0); lia.
Qed.

Lemma clamp_down (hi v : Z) : 0 <= v <= hi -> clamp hi (v + -1) = Z.max 0 (v - 1).
Proof.
  intros Hv. unfold clamp.
  destruct (Z.ltb_spec hi (v + -1)); [lia|].
  destruct (Z.ltb_spec (v + -1) 0); lia.
Qed.

Lemma Buckets_Get_Some (bs : Buckets) (i v : Z) :
  Buckets_Get bs i = Some v ->
  0 <= i < bucketCount bs /\ counters bs !! Z.to_nat i = Some v.
Proof.
  unfold Buckets_Get.
  destruct (Z.leb_spec 0 i), (Z.ltb_spec i (bucketCount bs)); simpl;
    intros Hl; by try lia.
Qed.

Lemma Buckets_Get_in_range (bs : Buckets) (i : Z) :
  Buckets_wf bs -> 0 <= i < bucketCount bs ->
  exists v, Buckets_Get bs i = Some v /\ 0 <= v <= Buckets_max bs.
Proof.
  intros [Hc Hw Hlen Hr] Hi. unfold Buckets_Get.
  destruct (Z.leb_spec 0 i), (Z.ltb_spec i (bucketCount bs)); try lia; simpl.
  destruct (lookup_lt_is_Some_2 (counters bs) (Z.to_nat i)) as [v Hv]; [lia|].
  exists v. split; [done|].
  by apply (proj1 (Forall_lookup _ _) Hr (Z.to_nat i)).
Qed.

Lemma Buckets_Get_range (bs : Buckets) (i v : Z) :
  Buckets_wf bs -> Buckets_Get bs i = Some v -> 0 <= v <= Buckets_max bs.
Proof.
  intros Hwf Hg. destruct (Buckets_Get_Some _ _ _ Hg) as [Hi _].
  destruct (Buckets_Get_in_range bs i Hwf Hi) as (v' & Hv' & Hr). congruence.
Qed.

Lemma Buckets_Get_is_Some (bs : Buckets) (i : Z) :
  Buckets_wf bs ->
  is_Some (Buckets_Get bs i) <-> 0 <= i < bucketCount bs.
Proof.
  intros Hwf. split.
  - intros [v Hv]. by apply Buckets_Get_Some in Hv as [? _].
  - intros Hi. destruct (Buckets_Get_in_range bs i Hwf Hi) as (v & -> & _).
    by eexists.
Qed.

Lemma Buckets_Increment_Some (bs : Buckets) (i delta v : Z) :
  Buckets_Get bs i = Some v ->
  Buckets_Increment bs i delta
  = Some {| bucketCount := bucketCount bs; bucketWidth := bucketWidth bs;
            counters :=
              <[Z.to_nat i := clamp (Buckets_max bs) (v + delta)]>
                (counters bs) |}.
Proof. intros Hg. unfold Buckets_Increment. by rewrite Hg. Qed.

Lemma Buckets_Increment_inv (bs bs' : Buckets) (i delta : Z) :
  Buckets_Increment bs i delta = Some bs' ->
  exists v, Buckets_Get bs i = Some v /\
    bs' = {| bucketCount := bucketCount bs; bucketWidth := bucketWidth bs;
             counters :=
               <[Z.to_nat i := clamp (Buckets_max bs) (v + delta)]>
                 (counters bs) |}.
Proof.
  unfold Buckets_Increment. destruct (Buckets_Get bs i) as [v|]; [|done].
  simpl. intros [= <-]. eauto.
Qed.

Lemma Buckets_Increment_shape (bs bs' : Buckets) (i delta : Z) :
  Buckets_Increment bs i delta = Some bs' ->
  bucketCount bs' = bucketCount bs /\ bucketWidth bs' = bucketWidth bs /\
  Buckets_max bs' = Buckets_max bs.
Proof. intros (v & _ & ->)%Buckets_Increment_inv. done. Qed.

Lemma Buckets_Increment_wf (bs bs' : Buckets) (i delta : Z) :
  Buckets_wf bs -> Buckets_Increment bs i delta = Some bs' -> Buckets_wf bs'.
Proof.
  intros [Hc Hw Hlen Hr] (v & _ & ->)%Buckets_Increment_inv.
  split; simpl; [done|done|by rewrite length_insert|].
  apply Forall_insert; [done|].
  apply clamp_range. unfold Buckets_max; simpl.
  by apply (Buckets_max_nonneg bs).
Qed.

(** Reading after an increment. *)
Lemma Buckets_Get_Increment (bs bs' : Buckets) (i delta j : Z) :
  Buckets_wf bs -> Buckets_Increment bs i delta = Some bs' ->
  Buckets_Get bs' j
  = if decide (j = i)
    then (fun v => clamp (Buckets_max bs) (v + delta)) <$> Buckets_Get bs i
    else Buckets_Get bs j.
Proof.
  intros Hwf Hinc.
  destruct (Buckets_Increment_inv _ _ _ _ Hinc) as (v & Hg & ->).
  destruct (Buckets_Get_Some _ _ _ Hg) as [Hi Hl].
  unfold Buckets_Get at 1; simpl.
  destruct (decide (j = i)) as [->|Hne].
  - rewrite Hg; simpl.
    destruct (Z.leb_spec 0 i), (Z.ltb_spec i (bucketCount bs)); try lia; simpl.
    apply list_lookup_insert_eq. by apply lookup_lt_Some in Hl.
  - unfold Buckets_Get.
    destruct (Z.leb_spec 0 j), (Z.ltb_spec j (bucketCount bs)); simpl; try done.
    apply list_lookup_insert_ne. lia.
Qed.

Lemma Buckets_ext (bs bs' : Buckets) :
  Buckets_wf bs -> Buckets_wf bs' ->
  bucketCount bs = bucketCount bs' -> bucketWidth bs = bucketWidth bs' ->
  (forall j, 0 <= j < bucketCount bs -> Buckets_Get bs j = Buckets_Get bs' j) ->
  bs = bs'.
Proof.
  intros [Hc Hw Hlen Hr] [Hc' Hw' Hlen' Hr'] Hcnt Hwid Hget.
  destruct bs as [n w l], bs' as [n' w' l']; simpl in *; subst n' w'.
  f_equal. apply list_eq; intros i.
  destruct (decide (i < Z.to_nat n)%nat) as [Hi|Hi].
  - specialize (Hget (Z.of_nat i) ltac:(lia)). unfold Buckets_Get in Hget.
    simpl in Hget.
    destruct (Z.leb_spec 0 (Z.of_nat i)), (Z.ltb_spec (Z.of_nat i) n);
      try lia; simpl in Hget.
    by rewrite Nat2Z.id in Hget.
  - rewrite !lookup_ge_None_2; [done|lia|lia].
Qed.

Lemma NewBuckets_wf (cnt width : Z) :
  0 <= cnt -> 0 <= width -> Buckets_wf (NewBuckets cnt width).
Proof.
  intros Hc Hw. split; simpl; [done|done|by rewrite length_replicate|].
  apply Forall_replicate. split; [done|].
  by apply (Buckets_max_nonneg (NewBuckets cnt width)).
Qed.

Lemma Buckets_Reset_wf (bs : Buckets) : Buckets_wf bs -> Buckets_wf (Buckets_Reset bs).
Proof. intros [Hc Hw _ _]. by apply NewBuckets_wf. Qed.

Lemma Buckets_Get_Reset (bs : Buckets) (i v : Z) :
  Buckets_Get (Buckets_Reset bs) i = Some v -> v = 0.
Proof.
  intros [_ Hl]%Buckets_Get_Some. simpl in Hl.
  by apply lookup_replicate in Hl as [-> _].
Qed.

(** ** Increments over a list of indices *)

Lemma occurrences_nil (j : Z) : occurrences j [] = 0.
Proof. done. Qed.

Lemma occurrences_cons (j i : Z) (l : list Z) :
  occurrences j (i :: l) = (if decide (j = i) then 1 else 0) + occurrences j l.
Proof.
  unfold occurrences. rewrite filter_cons.
  destruct (decide (i = j)), (decide (j = i)); try congruence; simpl; lia.
Qed.

Lemma occurrences_nonneg (j : Z) (l : list Z) : 0 <= occurrences j l.
Proof. unfold occurrences. lia. Qed.

Lemma occurrences_pos (j : Z) (l : list Z) : In j l -> 1 <= occurrences j l.
Proof.
  induction l as [|i l IH]; [done|]. rewrite occurrences_cons.
  pose proof (occurrences_nonneg j l).
  intros [->|Hin]; [by rewrite decide_True by done; lia|].
  specialize (IH Hin). destruct (decide (j = i)); lia.
Qed.

Lemma Increment_all_shape (bs bs' : Buckets) (l : list Z) (delta : Z) :
  Increment_all bs l delta = Some bs' ->
  bucketCount bs' = bucketCount bs /\ bucketWidth bs' = bucketWidth bs /\
  Buckets_max bs' = Buckets_max bs.
Proof.
  revert bs. induction l as [|i l IH]; intros bs; simpl.
  - by intros [= ->].
  - destruct (Buckets_Increment bs i delta) as [bs1|] eqn:E; [|done]. simpl.
    intros H. apply IH in H. apply Buckets_Increment_shape in E.
    destruct H as (-> & -> & ->). done.
Qed.

Lemma Increment_all_wf (bs bs' : Buckets) (l : list Z) (delta : Z) :
  Buckets_wf bs -> Increment_all bs l delta = Some bs' -> Buckets_wf bs'.
Proof.
  revert bs. induction l as [|i l IH]; intros bs Hwf; simpl.
  - by intros [= <-].
  - destruct (Buckets_Increment bs i delta) as [bs1|] eqn:E; [|done]. simpl.
    apply IH. by eapply Buckets_Increment_wf.
Qed.

Lemma Increment_all_is_Some (bs : Buckets) (l : list Z) (delta : Z) :
  Buckets_wf bs ->
  Forall (fun i => 0 <= i < bucketCount bs) l ->
  is_Some (Increment_all bs l delta).
Proof.
  intros Hwf Hl. revert bs Hwf Hl.
  induction l as [|i l IH]; intros bs Hwf Hl; simpl; [by eexists|].
  apply Forall_cons in Hl as [Hi Hl].
  destruct (Buckets_Get_in_range bs i Hwf Hi) as (v & Hv & _).
  rewrite (Buckets_Increment_Some _ _ _ _ Hv). simpl.
  apply IH; [|done].
  eapply Buckets_Increment_wf; [done|]. by apply Buckets_Increment_Some.
Qed.

Lemma Increment_all_in_range (bs bs' : Buckets) (l : list Z) (delta : Z) :
  Increment_all bs l delta = Some bs' ->
  Forall (fun i => 0 <= i < bucketCount bs) l.
Proof.
  revert bs. induction l as [|i l IH]; intros bs; simpl; [by constructor|].
  destruct (Buckets_Increment bs i delta) as [bs1|] eqn:E; [|done]. simpl.
  intros H. constructor.
  - apply Buckets_Increment_inv in E as (v & Hv & _).
    by apply Buckets_Get_Some in Hv as [? _].
  - apply IH in H. apply Buckets_Increment_shape in E as (<- & _). done.
Qed.

(** A bucket after the increments: its value plus the number of times its
    index occurs, capped at the largest value. *)
Lemma Buckets_Get_Increment_all_up (bs bs' : Buckets) (l : list Z) (j v : Z) :
  Buckets_wf bs -> Increment_all bs l 1 = Some bs' ->
  Buckets_Get bs j = Some v ->
  Buckets_Get bs' j = Some (Z.min (Buckets_max bs) (v + occurrences j l)).
Proof.
  revert bs v. induction l as [|i l IH]; intros bs v Hwf; simpl.
  - intros [= <-] Hv. rewrite Hv, occurrences_nil.
    pose proof (Buckets_Get_range _ _ _ Hwf Hv). f_equal; lia.
  - destruct (Buckets_Increment bs i 1) as [bs1|] eqn:E; [|done]. simpl.
    intros Hall Hv.
    pose proof (Buckets_Get_range _ _ _ Hwf Hv) as Hr.
    pose proof (Buckets_Get_Increment _ _ _ _ j Hwf E) as Hg1.
    pose proof (Buckets_Increment_wf _ _ _ _ Hwf E) as Hwf1.
    destruct (Buckets_Increment_shape _ _ _ _ E) as (_ & _ & Hmax).
    pose proof (occurrences_nonneg j l).
    rewrite occurrences_cons. destruct (decide (j = i)) as [->|Hne].
    + rewrite Hv in Hg1; simpl in Hg1. rewrite clamp_up in Hg1 by done.
      rewrite (IH _ _ Hwf1 Hall Hg1), Hmax. f_equal; lia.
    + rewrite Hv in Hg1. rewrite (IH _ _ Hwf1 Hall Hg1), Hmax. f_equal; lia.
Qed.

(** A bucket after the decrements: its value minus the number of times its
    index occurs, held at zero. *)
Lemma Buckets_Get_Increment_all_down (bs bs' : Buckets) (l : list Z) (j v : Z) :
  Buckets_wf bs -> Increment_all bs l (-1) = Some bs' ->
  Buckets_Get bs j = Some v ->
  Buckets_Get bs' j = Some (Z.max 0 (v - occurrences j l)).
Proof.
  revert bs v. induction l as [|i l IH]; intros bs v Hwf; simpl.
  - intros [= <-] Hv. rewrite Hv, occurrences_nil.
    pose proof (Buckets_Get_range _ _ _ Hwf Hv). f_equal; lia.
  - destruct (Buckets_Increment bs i (-1)) as [bs1|] eqn:E; [|done]. simpl.
    intros Hall Hv.
    pose proof (Buckets_Get_range _ _ _ Hwf Hv) as Hr.
    pose proof (Buckets_Get_Increment _ _ _ _ j Hwf E) as Hg1.
    pose proof (Buckets_Increment_wf _ _ _ _ Hwf E) as Hwf1.
    pose proof (occurrences_nonneg j l).
    rewrite occurrences_cons. destruct (decide (j = i)) as [->|Hne].
    + rewrite Hv in Hg1; simpl in Hg1. rewrite clamp_down in Hg1 by done.
      rewrite (IH _ _ Hwf1 Hall Hg1). f_equal; lia.
    + rewrite Hv in Hg1. rewrite (IH _ _ Hwf1 Hall Hg1). f_equal; lia.
Qed.

(** When no increment is refused every bucket has room for all the
    increments it receives. *)
Lemma Increment_all_room (bs bs' : Buckets) (l : list Z) (j v : Z) :
  Buckets_wf bs -> Increment_all bs l 1 = Some bs' ->
  Increment_all_refused bs l = false ->
  Buckets_Get bs j = Some v ->
  v + occurrences j l <= Buckets_max bs.
Proof.
  revert bs v. induction l as [|i l IH]; intros bs v Hwf; simpl.
  - intros _ _ Hv. rewrite occurrences_nil.
    pose proof (Buckets_Get_range _ _ _ Hwf Hv). lia.
  - destruct (Buckets_Increment bs i 1) as [bs1|] eqn:E; [|done]. simpl.
    intros Hall [Href Hrest]%orb_false_elim Hv.
    pose proof (Buckets_Get_range _ _ _ Hwf Hv) as Hr.
    pose proof (Buckets_Get_Increment _ _ _ _ j Hwf E) as Hg1.
    pose proof (Buckets_Increment_wf _ _ _ _ Hwf E) as Hwf1.
    destruct (Buckets_Increment_shape _ _ _ _ E) as (_ & _ & Hmax).
    rewrite occurrences_cons. destruct (decide (j = i)) as [->|Hne].
    + rewrite Hv in Hg1; simpl in Hg1. rewrite clamp_up in Hg1 by done.
      unfold Increment_refused in Href. rewrite Hv in Href.
      apply Z.ltb_ge in Href.
      pose proof (IH _ _ Hwf1 Hall Hrest Hg1). lia.
    + rewrite Hv in Hg1. pose proof (IH _ _ Hwf1 Hall Hrest Hg1). lia.
Qed.

(** Decrementing the same indices undoes increments that were all taken. *)
Lemma Increment_all_undo (bs bs' : Buckets) (l : list Z) :
  Buckets_wf bs -> Increment_all bs l 1 = Some bs' ->
  Increment_all_refused bs l = false ->
  Increment_all bs' l (-1) = Some bs.
Proof.
  intros Hwf Hup Href.
  pose proof (Increment_all_wf _ _ _ _ Hwf Hup) as Hwf'.
  destruct (Increment_all_shape _ _ _ _ Hup) as (Hc & Hw & Hmax).
  destruct (Increment_all_is_Some bs' l (-1) Hwf') as [bs2 Hdown].
  { rewrite Hc. by eapply Increment_all_in_range. }
  rewrite Hdown. f_equal.
  pose proof (Increment_all_wf _ _ _ _ Hwf' Hdown) as Hwf2.
  destruct (Increment_all_shape _ _ _ _ Hdown) as (Hc2 & Hw2 & _).
  apply Buckets_ext; [done|done|congruence|congruence|].
  intros j Hj. rewrite Hc2, Hc in Hj.
  destruct (Buckets_Get_in_range bs j Hwf Hj) as (v & Hv & Hr).
  pose proof (Increment_all_room _ _ _ _ _ Hwf Hup Href Hv) as Hroom.
  pose proof (Buckets_Get_Increment_all_up _ _ _ _ _ Hwf Hup Hv) as Hv1.
  rewrite (Buckets_Get_Increment_all_down _ _ _ _ _ Hwf' Hdown Hv1), Hv.
  f_equal. pose proof (occurrences_nonneg j l). lia.
Qed.

(** ** The loops, over the list of the indices *)

Lemma bucket_index_Some (a : arch) (lower upper i mm : Z) :
  mm <> 0 ->
  bucket_index a lower upper i mm = Some (index_at a mm lower upper i).
Proof.
  intros Hmm. unfold bucket_index, uint_rem, index_at.
  rewrite (proj2 (Z.eqb_neq mm 0) Hmm). do 2 f_equal.
  unfold uint_add, uint_mul, to_uint.
  pose proof (uint_modulus_pos a).
  rewrite Z.add_mod_idemp_r, Z.add_mod_idemp_l by lia.
  rewrite <- Z.add_mod_idemp_r by lia.
  rewrite Z.mul_mod_idemp_l by lia.
  by rewrite Z.add_mod_idemp_r by lia.
Qed.

Lemma bucket_index_zero (a : arch) (lower upper i : Z) :
  bucket_index a lower upper i 0 = None.
Proof. done. Qed.

Lemma bucket_index_inv (a : arch) (lower upper i mm idx : Z) :
  bucket_index a lower upper i mm = Some idx ->
  mm <> 0 /\ idx = index_at a mm lower upper i.
Proof.
  intros H. destruct (Z.eq_dec mm 0) as [->|Hne]; [done|].
  rewrite bucket_index_Some in H by done. split; congruence.
Qed.

Lemma index_at_range (a : arch) (mm lower upper i : Z) :
  0 < mm -> 0 <= index_at a mm lower upper i < mm.
Proof. intros Hmm. apply Z.mod_pos_bound, Hmm. Qed.

Lemma indices_from_O (a : arch) (mm lower upper i : Z) :
  indices_from a mm lower upper i 0 = [].
Proof. done. Qed.

Lemma indices_from_S (a : arch) (mm lower upper i : Z) (n : nat) :
  indices_from a mm lower upper i (S n)
  = index_at a mm lower upper i :: indices_from a mm lower upper (i + 1) n.
Proof.
  unfold indices_from. rewrite seqZ_cons by lia. simpl.
  do 3 f_equal; lia.
Qed.

Lemma indices_from_in_range (a : arch) (mm lower upper i : Z) (n : nat) :
  0 < mm -> Forall (fun j => 0 <= j < mm) (indices_from a mm lower upper i n).
Proof.
  intros Hmm. unfold indices_from. apply Forall_map, Forall_forall.
  intros j _. simpl. by apply index_at_range.
Qed.

Lemma length_indices_from (a : arch) (mm lower upper i : Z) (n : nat) :
  length (indices_from a mm lower upper i n) = n.
Proof. unfold indices_from. rewrite length_map, length_seqZ. lia. Qed.

Section Loops.
Variable a : arch.
Variables mm lower upper : Z.
Hypothesis mm_nonzero : mm <> 0.

Lemma Add_loop_eq (n : nat) (i : Z) (bs : Buckets) :
  Add_loop a mm lower upper n i bs
  = Increment_all bs (indices_from a mm lower upper i n) 1.
Proof.
  revert i bs. induction n as [|n IH]; intros i bs; [done|].
  rewrite indices_from_S. simpl. rewrite bucket_index_Some by done. simpl.
  destruct (Buckets_Increment bs _ 1); simpl; [apply IH|done].
Qed.

Lemma Add_loop_saturates_eq (n : nat) (i : Z) (bs : Buckets) :
  Add_loop_saturates a mm lower upper n i bs
  = Increment_all_refused bs (indices_from a mm lower upper i n).
Proof.
  revert i bs. induction n as [|n IH]; intros i bs; [done|].
  rewrite indices_from_S. simpl. rewrite bucket_index_Some by done.
  f_equal. destruct (Buckets_Increment bs _ 1); [apply IH|done].
Qed.

Lemma TestAndAdd_loop_eq (n : nat) (i : Z) (member : bool) (bs : Buckets) :
  TestAndAdd_loop a mm lower upper n i member bs
  = test_add_all bs (indices_from a mm lower upper i n) member.
Proof.
  revert i member bs. induction n as [|n IH]; intros i member bs; [done|].
  rewrite indices_from_S. simpl. rewrite bucket_index_Some by done. simpl.
  destruct (Buckets_Get bs _) as [v|]; simpl; [|done].
  destruct (Buckets_Increment bs _ 1); simpl; [apply IH|done].
Qed.

Lemma TestAndRemove_scan_eq (bs : Buckets) (n : nat) (i : Z)
    (member : bool) (buf : list Z) :
  0 <= i -> length buf = (Z.to_nat i + n)%nat ->
  TestAndRemove_scan a mm lower upper bs n i member buf
  = (r ← scan_all bs (indices_from a mm lower upper i n) member;
     Some (r, take (Z.to_nat i) buf ++ indices_from a mm lower upper i n)).
Proof.
  revert i member buf.
  induction n as [|n IH]; intros i member buf Hi Hlen.
  - simpl. rewrite indices_from_O, app_nil_r, take_ge by lia. done.
  - rewrite indices_from_S. simpl. rewrite bucket_index_Some by done. simpl.
    set (idx := index_at a mm lower upper i).
    assert (Hin : (0 <=? i) && (i <? Z.of_nat (length buf)) = true).
    { apply andb_true_intro. split; [apply Z.leb_le|apply Z.ltb_lt]; lia. }
    unfold store. rewrite Hin. simpl.
    unfold load. rewrite length_insert, Hin.
    rewrite list_lookup_insert_eq by lia. simpl.
    destruct (Buckets_Get bs idx) as [v|]; simpl; [|done].
    rewrite IH by (rewrite ?length_insert; lia).
    destruct (scan_all bs _ _) as [r|]; simpl; [|done].
    do 2 f_equal.
    replace (Z.to_nat (i + 1)) with (S (Z.to_nat i)) by lia.
    erewrite take_S_r by (apply list_lookup_insert_eq; lia).
    rewrite take_insert_ge by lia. by rewrite <- app_assoc.
Qed.
End Loops.

Lemma Test_loop_eq (a : arch) (c : CountingBloomFilter) (lower upper : Z)
    (n : nat) (i : Z) :
  m c <> 0 ->
  Test_loop a c lower upper n i
  = all_nonzero (buckets c) (indices_from a (m c) lower upper i n).
Proof.
  intros Hm. revert i. induction n as [|n IH]; intros i; [done|].
  rewrite indices_from_S. simpl. rewrite bucket_index_Some by done. simpl.
  destruct (Buckets_Get (buckets c) _) as [v|]; simpl; [|done].
  destruct (v =? 0); [done|apply IH].
Qed.

Lemma TestAndRemove_drain_eq (buf : list Z) (bs : Buckets) :
  TestAndRemove_drain buf bs = Increment_all bs buf (-1).
Proof.
  revert bs. induction buf as [|idx buf IH]; intros bs; [done|]. simpl.
  destruct (Buckets_Increment bs idx (-1)); simpl; [apply IH|done].
Qed.

(** ** Reading a list of buckets *)

Lemma all_nonzero_is_Some (bs : Buckets) (l : list Z) :
  Buckets_wf bs -> Forall (fun i => 0 <= i < bucketCount bs) l ->
  is_Some (all_nonzero bs l).
Proof.
  intros Hwf. induction l as [|i l IH]; intros Hl; simpl; [by eexists|].
  apply Forall_cons in Hl as [Hi Hl].
  destruct (Buckets_Get_in_range bs i Hwf Hi) as (v & -> & _). simpl.
  destruct (v =? 0); [by eexists|by apply IH].
Qed.

(** [all_nonzero] answers true exactly when every bucket of the list holds
    a value that is not zero. *)
Lemma all_nonzero_true (bs : Buckets) (l : list Z) :
  all_nonzero bs l = Some true <->
  forall j, In j l -> exists v, Buckets_Get bs j = Some v /\ v <> 0.
Proof.
  induction l as [|i l IH]; simpl.
  - split; [intros _ j []|done].
  - destruct (Buckets_Get bs i) as [v|] eqn:Hv; simpl.
    + destruct (Z.eqb_spec v 0) as [->|Hne].
      * split; [done|]. intros H. destruct (H i (or_introl eq_refl)) as (v & Hv' & Hne).
        congruence.
      * rewrite IH. split.
        -- intros H j [<-|Hj]; [eauto|by apply H].
        -- intros H j Hj. apply H. by right.
    + split; [done|]. intros H.
      destruct (H i (or_introl eq_refl)) as (v & Hv' & _). congruence.
Qed.

Lemma all_nonzero_false (bs : Buckets) (l : list Z) :
  all_nonzero bs l = Some false ->
  exists j, In j l /\ Buckets_Get bs j = Some 0.
Proof.
  induction l as [|i l IH]; simpl; [done|].
  destruct (Buckets_Get bs i) as [v|] eqn:Hv; simpl; [|done].
  destruct (Z.eqb_spec v 0) as [->|Hne].
  - intros _. exists i. auto.
  - intros (j & Hj & H0)%IH. exists j. auto.
Qed.

(** Two bucket arrays with the same zero buckets read alike. *)
Lemma all_nonzero_pattern (bs bs1 : Buckets) (l : list Z) :
  (forall j, (fun v => v =? 0) <$> Buckets_Get bs j
             = (fun v => v =? 0) <$> Buckets_Get bs1 j) ->
  all_nonzero bs l = all_nonzero bs1 l.
Proof.
  intros Hp. induction l as [|i l IH]; simpl; [done|].
  specialize (Hp i).
  destruct (Buckets_Get bs i) as [v|], (Buckets_Get bs1 i) as [v1|];
    simpl in *; try done.
  injection Hp as ->. by rewrite IH.
Qed.

Lemma scan_all_false (bs : Buckets) (l : list Z) :
  Buckets_wf bs -> Forall (fun i => 0 <= i < bucketCount bs) l ->
  scan_all bs l false = Some false.
Proof.
  intros Hwf. induction l as [|i l IH]; intros Hl; simpl; [done|].
  apply Forall_cons in Hl as [Hi Hl].
  destruct (Buckets_Get_in_range bs i Hwf Hi) as (v & -> & _). simpl.
  destruct (v =? 0); by apply IH.
Qed.

(** Without the early exit the answer is the same, as long as every index
    is in range. *)
Lemma scan_all_all_nonzero (bs : Buckets) (l : list Z) :
  Buckets_wf bs -> Forall (fun i => 0 <= i < bucketCount bs) l ->
  scan_all bs l true = all_nonzero bs l.
Proof.
  intros Hwf. induction l as [|i l IH]; intros Hl; simpl; [done|].
  apply Forall_cons in Hl as [Hi Hl].
  destruct (Buckets_Get_in_range bs i Hwf Hi) as (v & -> & _). simpl.
  destruct (v =? 0); [by apply scan_all_false|by apply IH].
Qed.

Lemma test_add_all_false (bs : Buckets) (l : list Z) :
  test_add_all bs l false = (bs' ← Increment_all bs l 1; Some (false, bs')).
Proof.
  revert bs. induction l as [|i l IH]; intros bs; simpl; [done|].
  unfold Buckets_Increment.
  destruct (Buckets_Get bs i) as [v|]; simpl; [|done].
  destruct (v =? 0); apply IH.
Qed.

(** Incrementing a bucket that is not zero leaves the zero buckets as they
    were. *)
Lemma Increment_nonzero_pattern (bs bs1 : Buckets) (i v j : Z) :
  Buckets_wf bs -> Buckets_Get bs i = Some v -> v <> 0 ->
  Buckets_Increment bs i 1 = Some bs1 ->
  (fun v => v =? 0) <$> Buckets_Get bs1 j
  = (fun v => v =? 0) <$> Buckets_Get bs j.
Proof.
  intros Hwf Hv Hne Hinc.
  rewrite (Buckets_Get_Increment _ _ _ _ j Hwf Hinc).
  destruct (decide (j = i)) as [->|]; [|done].
  rewrite Hv. simpl. f_equal.
  pose proof (Buckets_Get_range _ _ _ Hwf Hv).
  rewrite clamp_up by done.
  rewrite (proj2 (Z.eqb_neq v 0) Hne).
  apply Z.eqb_neq. lia.
Qed.

(** Reading each bucket just before its increment gives the answer of
    reading them all first. *)
Lemma test_add_all_eq (bs : Buckets) (l : list Z) :
  Buckets_wf bs ->
  test_add_all bs l true
  = (r ← all_nonzero bs l; bs' ← Increment_all bs l 1; Some (r, bs')).
Proof.
  revert bs. induction l as [|i l IH]; intros bs Hwf; simpl; [done|].
  destruct (Buckets_Get bs i) as [v|] eqn:Hv; simpl; [|done].
  rewrite (Buckets_Increment_Some _ _ _ _ Hv). simpl.
  set (bs1 := {| bucketCount := _ |}).
  assert (Hinc : Buckets_Increment bs i 1 = Some bs1)
    by by apply Buckets_Increment_Some.
  destruct (Z.eqb_spec v 0) as [->|Hne].
  - apply test_add_all_false.
  - rewrite IH by by eapply Buckets_Increment_wf.
    rewrite (all_nonzero_pattern bs1 bs); [done|].
    intros j. by eapply Increment_nonzero_pattern.
Qed.

(** ** The operations, over the indices of the element *)

Section Equations.
Variable a : arch.
Variable c : CountingBloomFilter.
Variable data : list byte.
Hypothesis hash_reset : hash c = offset64.
Hypothesis runs : runnable c.

Lemma Test_eq :
  Test a c data
  = (r ← all_nonzero (buckets c) (indices a c data); Some (r, c)).
Proof.
  unfold Test. rewrite hashKernel_digest by done. simpl.
  destruct runs as [Hm|Hk]; [by rewrite Test_loop_eq|].
  unfold indices. by rewrite Hk.
Qed.

Lemma Add_eq :
  Add a c data
  = (bs ← Increment_all (buckets c) (indices a c data) 1;
     Some (set_count (set_buckets c bs) (uint_add a (count c) 1))).
Proof.
  unfold Add. rewrite hashKernel_digest by done. simpl.
  destruct runs as [Hm|Hk]; [by rewrite Add_loop_eq|].
  unfold indices. by rewrite Hk.
Qed.

Lemma Add_saturates_eq :
  Add_saturates a c data
  = Increment_all_refused (buckets c) (indices a c data).
Proof.
  unfold Add_saturates. rewrite hashKernel_digest by done.
  destruct runs as [Hm|Hk]; [by rewrite Add_loop_saturates_eq|].
  unfold indices. by rewrite Hk.
Qed.

Lemma TestAndAdd_eq :
  TestAndAdd a c data
  = ('(member, bs) ← test_add_all (buckets c) (indices a c data) true;
     Some (member,
           set_count (set_buckets c bs) (uint_add a (count c) 1))).
Proof.
  unfold TestAndAdd. rewrite hashKernel_digest by done. simpl.
  destruct runs as [Hm|Hk]; [by rewrite TestAndAdd_loop_eq|].
  unfold indices. by rewrite Hk.
Qed.

Lemma TestAndRemove_eq :
  length (indexBuffer c) = Z.to_nat (k c) ->
  TestAndRemove a c data
  = (member ← scan_all (buckets c) (indices a c data) true;
     if (member : bool) then
       bs ← Increment_all (buckets c) (indices a c data) (-1);
       Some (true,
             set_count (set_buckets (set_indexBuffer c (indices a c data)) bs)
               (to_uint a (count c - 1)))
     else Some (false, set_indexBuffer c (indices a c data))).
Proof.
  intros Hlen. unfold TestAndRemove.
  rewrite hashKernel_digest by done. simpl.
  destruct runs as [Hm|Hk].
  - rewrite TestAndRemove_scan_eq by (done || lia). simpl.
    fold (indices a c data).
    destruct (scan_all _ _ _) as [[|]|]; simpl; [|done|done].
    by rewrite TestAndRemove_drain_eq.
  - unfold indices. rewrite Hk in *. simpl.
    destruct (indexBuffer c) as [|? ?] eqn:Hbuf; [|done]. simpl.
    destruct c; simpl in *. by subst.
Qed.
End Equations.

(** ** Well-formed filters *)

Lemma NewCountingBloomFilter_wf (a : arch) {float64 : Type}
    (OptimalM : Z -> float64 -> Z) (OptimalK : float64 -> Z)
    (n width : Z) (fpRate : float64) :
  0 <= OptimalM n fpRate -> 0 <= OptimalK fpRate -> 0 <= width ->
  filter_wf a (NewCountingBloomFilter OptimalM OptimalK n width fpRate).
Proof.
  intros Hm Hk Hw. split; simpl; try done.
  - by apply NewBuckets_wf.
  - by rewrite length_replicate.
  - pose proof (uint_modulus_pos a). lia.
Qed.

Lemma fresh_wf (a : arch) (mm kk width : Z) :
  0 <= mm -> 0 <= kk -> 0 <= width -> filter_wf a (fresh mm kk width).
Proof. intros. by apply NewCountingBloomFilter_wf. Qed.

Lemma indices_same (a : arch) (c c' : CountingBloomFilter) (x : list byte) :
  m c' = m c -> k c' = k c -> indices a c' x = indices a c x.
Proof. unfold indices. by intros -> ->. Qed.

Lemma length_indices (a : arch) (c : CountingBloomFilter) (x : list byte) :
  length (indices a c x) = Z.to_nat (k c).
Proof. apply length_indices_from. Qed.

Lemma indices_in_range (a : arch) (c : CountingBloomFilter) (x : list byte) :
  filter_wf a c -> runnable c ->
  Forall (fun j => 0 <= j < bucketCount (buckets c)) (indices a c x).
Proof.
  intros Hwf [Hm|Hk]; unfold indices.
  - rewrite (wf_m _ _ Hwf). apply indices_from_in_range.
    pose proof (wf_bucketCount _ (wf_buckets _ _ Hwf)).
    rewrite (wf_m _ _ Hwf) in *. lia.
  - rewrite Hk. constructor.
Qed.

(** A call that returns did not divide by zero. *)
Lemma Add_runnable (a : arch) (c c' : CountingBloomFilter) (x : list byte) :
  Add a c x = Some c' -> runnable c.
Proof.
  intros H. destruct (Z.eq_dec (m c) 0) as [Hm|Hm]; [right|by left].
  unfold Add in H. destruct (hashKernel_Some c x) as (lo & up & Hh).
  rewrite Hh in H. simpl in H. rewrite Hm in H.
  by destruct (Z.to_nat (k c)).
Qed.

Lemma Test_runnable (a : arch) (c : CountingBloomFilter) (x : list byte)
    (r : bool) (c' : CountingBloomFilter) :
  Test a c x = Some (r, c') -> runnable c.
Proof.
  intros H. destruct (Z.eq_dec (m c) 0) as [Hm|Hm]; [right|by left].
  unfold Test in H. destruct (hashKernel_Some c x) as (lo & up & Hh).
  rewrite Hh in H. simpl in H.
  destruct (Z.to_nat (k c)); [done|]. simpl in H. by rewrite Hm in H.
Qed.

Lemma Add_spec (a : arch) (c c' : CountingBloomFilter) (x : list byte) :
  filter_wf a c -> Add a c x = Some c' ->
  exists bs,
    Increment_all (buckets c) (indices a c x) 1 = Some bs /\
    c' = set_count (set_buckets c bs) (uint_add a (count c) 1).
Proof.
  intros Hwf H. pose proof (Add_runnable _ _ _ _ H) as Hr.
  rewrite (Add_eq a c x (wf_hash _ _ Hwf) Hr) in H.
  destruct (Increment_all _ _ 1) as [bs|]; [|done].
  simpl in H. injection H as <-. eauto.
Qed.

Lemma Add_wf (a : arch) (c c' : CountingBloomFilter) (x : list byte) :
  filter_wf a c -> Add a c x = Some c' -> filter_wf a c'.
Proof.
  intros Hwf H. destruct (Add_spec _ _ _ _ Hwf H) as (bs & Hbs & ->).
  destruct (Increment_all_shape _ _ _ _ Hbs) as (Hc & Hw & _).
  destruct Hwf as [Hb Hm Hwd Hh Hk Hbuf Hcnt].
  split; simpl; try done; try congruence.
  - by eapply Increment_all_wf.
  - apply to_uint_range.
Qed.

Lemma Add_total (a : arch) (c : CountingBloomFilter) (x : list byte) :
  filter_wf a c -> runnable c -> is_Some (Add a c x).
Proof.
  intros Hwf Hr. rewrite (Add_eq a c x (wf_hash _ _ Hwf) Hr).
  destruct (Increment_all_is_Some (buckets c) (indices a c x) 1) as [bs ->].
  - apply Hwf.
  - by apply indices_in_range.
  - by eexists.
Qed.

Lemma Adds_wf (a : arch) (xs : list (list byte)) (c c' : CountingBloomFilter) :
  filter_wf a c -> Adds a c xs = Some c' ->
  filter_wf a c' /\ m c' = m c /\ k c' = k c.
Proof.
  revert c. induction xs as [|x xs IH]; intros c Hwf; simpl.
  - by intros [= <-].
  - destruct (Add a c x) as [c1|] eqn:E; [|done]. simpl. intros H.
    destruct (IH c1 (Add_wf _ _ _ _ Hwf E) H) as (Hwf' & Hm & Hk).
    destruct (Add_spec _ _ _ _ Hwf E) as (bs & _ & ->). done.
Qed.

(** ** No false negative while nothing is removed *)

(** A value that is not zero stays so under increments. *)
Lemma Increment_all_keeps_nonzero (bs bs' : Buckets) (l : list Z) (j v : Z) :
  Buckets_wf bs -> Increment_all bs l 1 = Some bs' ->
  Buckets_Get bs j = Some v -> v <> 0 ->
  exists v', Buckets_Get bs' j = Some v' /\ v' <> 0.
Proof.
  intros Hwf Hall Hv Hne.
  rewrite (Buckets_Get_Increment_all_up _ _ _ _ _ Hwf Hall Hv).
  eexists; split; [done|].
  pose proof (Buckets_Get_range _ _ _ Hwf Hv).
  pose proof (occurrences_nonneg j l). lia.
Qed.

Lemma Add_present_self (a : arch) (c c' : CountingBloomFilter) (x : list byte) :
  filter_wf a c -> Add a c x = Some c' -> Add_saturates a c x = false ->
  present a c' x.
Proof.
  intros Hwf H Hsat. pose proof (Add_runnable _ _ _ _ H) as Hr.
  rewrite (Add_saturates_eq a c x (wf_hash _ _ Hwf) Hr) in Hsat.
  destruct (Add_spec _ _ _ _ Hwf H) as (bs & Hbs & ->).
  intros j Hj. simpl.
  rewrite (indices_same a c) in Hj by done.
  pose proof (indices_in_range a c x Hwf Hr) as Hrange.
  pose proof (proj1 (Forall_forall _ _) Hrange j
                (proj2 (list_elem_of_In _ _) Hj)) as Hjr.
  destruct (Buckets_Get_in_range _ j (wf_buckets _ _ Hwf) Hjr) as (v & Hv & Hvr).
  rewrite (Buckets_Get_Increment_all_up _ _ _ _ _ (wf_buckets _ _ Hwf) Hbs Hv).
  eexists; split; [done|].
  pose proof (Increment_all_room _ _ _ _ _ (wf_buckets _ _ Hwf) Hbs Hsat Hv).
  pose proof (occurrences_pos j _ Hj). lia.
Qed.

Lemma Add_present_other (a : arch) (c c' : CountingBloomFilter)
    (x y : list byte) :
  filter_wf a c -> Add a c y = Some c' -> present a c x -> present a c' x.
Proof.
  intros Hwf H Hp.
  destruct (Add_spec _ _ _ _ Hwf H) as (bs & Hbs & ->).
  intros j Hj. simpl. rewrite (indices_same a c) in Hj by done.
  destruct (Hp j Hj) as (v & Hv & Hne).
  by eapply Increment_all_keeps_nonzero; [apply Hwf|..].
Qed.

Lemma Adds_present (a : arch) (xs : list (list byte))
    (c c' : CountingBloomFilter) (x : list byte) :
  filter_wf a c -> Adds a c xs = Some c' -> present a c x -> present a c' x.
Proof.
  revert c. induction xs as [|y xs IH]; intros c Hwf; simpl.
  - by intros [= <-].
  - destruct (Add a c y) as [c1|] eqn:E; [|done]. simpl. intros H Hp.
    apply (IH c1); [by eapply Add_wf|done|by eapply Add_present_other].
Qed.

Lemma present_Test (a : arch) (c : CountingBloomFilter) (x : list byte) :
  filter_wf a c -> runnable c -> present a c x ->
  Test a c x = Some (true, c).
Proof.
  intros Hwf Hr Hp. rewrite (Test_eq a c x (wf_hash _ _ Hwf) Hr).
  by rewrite (proj2 (all_nonzero_true _ _) Hp).
Qed.

(** C1.  After a sequence of [Add] calls in which no increment was refused
    (no counter saturated), [Test] answers true for every element of the
    sequence, and leaves the filter as it is. *)
Theorem no_false_negative_after_adds (a : arch) (c c' : CountingBloomFilter)
    (xs : list (list byte)) (x : list byte) :
  filter_wf a c ->
  Adds a c xs = Some c' ->
  Adds_saturate a c xs = false ->
  In x xs ->
  Test a c' x = Some (true, c').
Proof.
  intros Hwf Hrun Hsat Hin.
  assert (Hgoal : filter_wf a c' /\ runnable c' /\ present a c' x).
  { revert c Hwf Hrun Hsat.
    induction xs as [|y xs IH]; intros c Hwf Hrun Hsat; [done|].
    simpl in Hrun, Hsat.
    destruct (Add a c y) as [c1|] eqn:E; [|done]. simpl in Hrun.
    apply orb_false_elim in Hsat as [Hsy Hsxs].
    pose proof (Add_wf _ _ _ _ Hwf E) as Hwf1.
    destruct (Adds_wf _ _ _ _ Hwf1 Hrun) as (Hwf' & Hm & Hk).
    destruct Hin as [->|Hin]; [|by apply (IH Hin c1)].
    split; [done|]. split.
    - destruct (Add_spec _ _ _ _ Hwf E) as (bs & _ & ->).
      destruct (Add_runnable _ _ _ _ E) as [?|?]; [left|right];
        simpl in *; congruence.
    - apply (Adds_present a xs c1); [done|done|].
      exact (Add_present_self a c c1 x Hwf E Hsy). }
  destruct Hgoal as (Hwf' & Hr' & Hp). by apply present_Test.
Qed.

Lemma no_false_negative_after_adds_witness :
  let c := fresh 5 3 4 in
  let xs := [bytes "a"; bytes "b"] in
  exists c',
    filter_wf arch64 c /\ Adds arch64 c xs = Some c' /\
    Adds_saturate arch64 c xs = false /\ In (bytes "a") xs /\
    Test arch64 c' (bytes "a") = Some (true, c').
Proof.
  intros c xs.
  assert (Hwf : filter_wf arch64 c) by (apply fresh_wf; lia).
  eexists. split; [exact Hwf|].
  split; [vm_compute; reflexivity|].
  split; [vm_compute; reflexivity|].
  split; [simpl; auto|].
  apply (no_false_negative_after_adds arch64 c _ xs (bytes "a") Hwf).
  - vm_compute; reflexivity.
  - vm_compute; reflexivity.
  - simpl; auto.
Defined.

(** ** [TestAndRemove] that fails *)

(** C2.  When [TestAndRemove] returns false, the buckets and the count of
    the filter are those of before the call. *)
Theorem TestAndRemove_false_unchanged (a : arch) (c c' : CountingBloomFilter)
    (x : list byte) :
  TestAndRemove a c x = Some (false, c') ->
  buckets c' = buckets c /\ Count c' = Count c.
Proof.
  unfold TestAndRemove. destruct (hashKernel_Some c x) as (lo & up & ->).
  simpl.
  destruct (TestAndRemove_scan _ _ _ _ _ _ _ _ _) as [[[|] buf]|]; simpl;
    [|by intros [= <-]|done].
  by destruct (TestAndRemove_drain _ _).
Qed.

Lemma TestAndRemove_false_unchanged_witness :
  let c := fresh 5 3 4 in
  let c' := set_indexBuffer c [3; 2; 1] in
  TestAndRemove arch64 c (bytes "a") = Some (false, c') /\
  buckets c' = buckets c /\ Count c' = Count c.
Proof.
  intros c c'. split; [vm_compute; reflexivity|].
  apply (TestAndRemove_false_unchanged arch64 c c' (bytes "a")).
  vm_compute; reflexivity.
Defined.

Lemma TestAndRemove_total (a : arch) (c : CountingBloomFilter) (x : list byte) :
  filter_wf a c -> runnable c -> is_Some (TestAndRemove a c x).
Proof.
  intros Hwf Hr.
  rewrite (TestAndRemove_eq a c x (wf_hash _ _ Hwf) Hr (wf_indexBuffer _ _ Hwf)).
  pose proof (indices_in_range a c x Hwf Hr) as Hrange.
  rewrite (scan_all_all_nonzero _ _ (wf_buckets _ _ Hwf) Hrange).
  destruct (all_nonzero_is_Some _ _ (wf_buckets _ _ Hwf) Hrange) as [[|] ->];
    simpl; [|by eexists].
  destruct (Increment_all_is_Some _ _ (-1) (wf_buckets _ _ Hwf) Hrange)
    as [bs ->].
  by eexists.
Qed.

(** ** [TestAndAdd] against [Test] then [Add] *)

(** C3.  [TestAndAdd] returns the boolean [Test] returns and ends in the
    filter that [Add] makes after [Test]; it panics exactly when they do. *)
Theorem TestAndAdd_is_Test_then_Add (a : arch) (c : CountingBloomFilter)
    (x : list byte) :
  filter_wf a c -> TestAndAdd a c x = Test_then_Add a c x.
Proof.
  intros Hwf. pose proof (wf_hash _ _ Hwf) as Hh.
  destruct (Z.eq_dec (m c) 0) as [Hm|Hm];
    [destruct (Z.to_nat (k c)) as [|n] eqn:Hk|].
  - assert (Hr : runnable c) by by right.
    rewrite (TestAndAdd_eq a c x Hh Hr). unfold Test_then_Add.
    rewrite (Test_eq a c x Hh Hr).
    rewrite test_add_all_eq by apply Hwf.
    destruct (all_nonzero _ _) as [r|]; simpl; [|done].
    rewrite (Add_eq a c x Hh Hr).
    by destruct (Increment_all _ _ _).
  - unfold TestAndAdd, Test_then_Add, Test.
    rewrite hashKernel_digest by done. simpl. rewrite Hk, Hm.
    cbn [TestAndAdd_loop Test_loop]. rewrite Hm, !bucket_index_zero. done.
  - assert (Hr : runnable c) by by left.
    rewrite (TestAndAdd_eq a c x Hh Hr). unfold Test_then_Add.
    rewrite (Test_eq a c x Hh Hr).
    rewrite test_add_all_eq by apply Hwf.
    destruct (all_nonzero _ _) as [r|]; simpl; [|done].
    rewrite (Add_eq a c x Hh Hr).
    by destruct (Increment_all _ _ _).
Qed.

Lemma TestAndAdd_is_Test_then_Add_witness :
  let c := fresh 5 3 4 in
  filter_wf arch64 c /\
  TestAndAdd arch64 c (bytes "a") = Test_then_Add arch64 c (bytes "a").
Proof.
  intros c.
  assert (Hwf : filter_wf arch64 c) by (apply fresh_wf; lia).
  split; [exact Hwf|].
  exact (TestAndAdd_is_Test_then_Add arch64 c (bytes "a") Hwf).
Defined.

(** ** [Add] then [TestAndRemove] *)

Lemma uint_inc_dec (a : arch) (n : Z) :
  0 <= n < uint_modulus a -> to_uint a (uint_add a n 1 - 1) = n.
Proof.
  intros Hn. unfold uint_add, to_uint.
  rewrite Zminus_mod_idemp_l.
  replace (n + 1 - 1) with n by lia. by apply Z.mod_small.
Qed.

(** C4, amended.  When no increment of [Add] is refused, [TestAndRemove] of
    the same element right after it returns true and puts back every bucket
    and the count. *)
Theorem Add_then_TestAndRemove (a : arch) (c c1 : CountingBloomFilter)
    (x : list byte) :
  filter_wf a c ->
  Add a c x = Some c1 ->
  Add_saturates a c x = false ->
  exists c2,
    TestAndRemove a c1 x = Some (true, c2) /\
    buckets c2 = buckets c /\ Count c2 = Count c.
Proof.
  intros Hwf HAdd Hsat.
  pose proof (Add_runnable _ _ _ _ HAdd) as Hr.
  pose proof (Add_wf _ _ _ _ Hwf HAdd) as Hwf1.
  pose proof (Add_present_self _ _ _ _ Hwf HAdd Hsat) as Hp.
  rewrite (Add_saturates_eq a c x (wf_hash _ _ Hwf) Hr) in Hsat.
  destruct (Add_spec _ _ _ _ Hwf HAdd) as (bs1 & Hbs & ->).
  set (c1 := set_count _ _) in *.
  assert (Hr1 : runnable c1) by exact Hr.
  rewrite (TestAndRemove_eq a c1 x (wf_hash _ _ Hwf1) Hr1
             (wf_indexBuffer _ _ Hwf1)).
  pose proof (indices_in_range a c1 x Hwf1 Hr1) as Hrange.
  rewrite (scan_all_all_nonzero _ _ (wf_buckets _ _ Hwf1) Hrange).
  rewrite (proj2 (all_nonzero_true _ _) Hp). simpl.
  change (indices a c1 x) with (indices a c x).
  rewrite (Increment_all_undo _ _ _ (wf_buckets _ _ Hwf) Hbs Hsat). simpl.
  eexists. split; [done|]. split; [done|].
  unfold Count. simpl. apply uint_inc_dec, Hwf.
Qed.

Lemma Add_then_TestAndRemove_witness :
  let c := fresh 5 3 4 in
  let c1 := set_count (set_buckets c (mkBuckets 5 4 [0; 1; 1; 1; 0])) 1 in
  filter_wf arch64 c /\ Add arch64 c (bytes "a") = Some c1 /\
  Add_saturates arch64 c (bytes "a") = false /\
  exists c2,
    TestAndRemove arch64 c1 (bytes "a") = Some (true, c2) /\
    buckets c2 = buckets c /\ Count c2 = Count c.
Proof.
  intros c c1.
  assert (Hwf : filter_wf arch64 c) by (apply fresh_wf; lia).
  assert (HAdd : Add arch64 c (bytes "a") = Some c1)
    by (vm_compute; reflexivity).
  assert (Hsat : Add_saturates arch64 c (bytes "a") = false)
    by (vm_compute; reflexivity).
  split; [exact Hwf|]. split; [exact HAdd|]. split; [exact Hsat|].
  exact (Add_then_TestAndRemove arch64 c c1 (bytes "a") Hwf HAdd Hsat).
Defined.

(** With a saturated counter the claim fails as it is written: after eight
    [Add] of "a" the bucket 0 holds 15, the largest value of four bits; "a"
    does not share the bucket 1 of "ab"; [Add] of "ab" leaves bucket 0 at 15
    and the [TestAndRemove] that follows takes it down to 14. *)
Lemma Add_then_TestAndRemove_counterexample :
  exists c c1 c2,
    Adds arch64 (fresh 2 2 4) (replicate 8 (bytes "a")) = Some c /\
    ~ shares_all_buckets arch64 c (bytes "a") (bytes "ab") /\
    Add arch64 c (bytes "ab") = Some c1 /\
    TestAndRemove arch64 c1 (bytes "ab") = Some (true, c2) /\
    In 0 (indices arch64 c (bytes "ab")) /\
    Buckets_Get (buckets c) 0 = Some 15 /\
    Buckets_Get (buckets c2) 0 = Some 14.
Proof.
  eexists _, _, _.
  split; [vm_compute; reflexivity|].
  split.
  { intros H. specialize (H 1). vm_compute in H.
    destruct H as [H|[H|[]]]; [by right; left|done|done]. }
  split; [vm_compute; reflexivity|].
  split; [vm_compute; reflexivity|].
  split; [vm_compute; by left|].
  split; vm_compute; reflexivity.
Qed.

(** ** [Test] *)

Lemma Test_loop_true (a : arch) (c : CountingBloomFilter) (lower upper : Z)
    (n : nat) (i : Z) (r : bool) :
  Test_loop a c lower upper n i = Some r ->
  (r = true <->
   forall j, i <= j < i + Z.of_nat n ->
     exists idx v,
       bucket_index a lower upper j (m c) = Some idx /\
       Buckets_Get (buckets c) idx = Some v /\ v <> 0).
Proof.
  revert i. induction n as [|n IH]; intros i; simpl.
  - intros [= <-]. split; [intros _ j Hj; lia|done].
  - destruct (bucket_index a lower upper i (m c)) as [idx|] eqn:Hidx;
      simpl; [|done].
    destruct (Buckets_Get (buckets c) idx) as [v|] eqn:Hv; simpl; [|done].
    destruct (Z.eqb_spec v 0) as [->|Hne].
    + intros [= <-]. split; [done|]. intros H.
      destruct (H i ltac:(lia)) as (idx' & v' & Hi' & Hv' & Hne').
      congruence.
    + intros H. rewrite (IH _ H). split.
      * intros Hall j Hj. destruct (Z.eq_dec j i) as [->|Hji].
        -- by exists idx, v.
        -- apply Hall. lia.
      * intros Hall j Hj. apply Hall. lia.
Qed.

(** C7.  [Test] returns true exactly when the bucket of each of the [k]
    rounds holds a value that is not zero, and the buckets, the count, [m],
    [k] and [b] of the filter are those of before the call. *)
Theorem Test_true_iff_all_nonzero (a : arch) (c c' : CountingBloomFilter)
    (x : list byte) (r : bool) :
  Test a c x = Some (r, c') ->
  (buckets c' = buckets c /\ Count c' = Count c /\
   Capacity c' = Capacity c /\ K c' = K c /\ b c' = b c) /\
  exists lower upper,
    hashKernel c x = Some (lower, upper, c') /\
    (r = true <->
     forall i, 0 <= i < k c ->
       exists idx v,
         bucket_index a lower upper i (m c) = Some idx /\
         Buckets_Get (buckets c) idx = Some v /\ v <> 0).
Proof.
  unfold Test. destruct (hashKernel_Some c x) as (lo & up & Hh).
  rewrite Hh. simpl.
  destruct (Test_loop _ _ _ _ _ _) as [r'|] eqn:Hloop; simpl; [|done].
  intros [= <- <-]. split; [done|].
  exists lo, up. split; [done|].
  rewrite (Test_loop_true _ _ _ _ _ _ _ Hloop). simpl.
  split; intros H i Hi; apply H; lia.
Qed.

Lemma Test_true_iff_all_nonzero_witness :
  let c := fresh 5 3 4 in
  Test arch64 c (bytes "a") = Some (false, c) /\
  (buckets c = buckets c /\ Count c = Count c /\
   Capacity c = Capacity c /\ K c = K c /\ b c = b c) /\
  exists lower upper,
    hashKernel c (bytes "a") = Some (lower, upper, c) /\
    (false = true <->
     forall i, 0 <= i < k c ->
       exists idx v,
         bucket_index arch64 lower upper i (m c) = Some idx /\
         Buckets_Get (buckets c) idx = Some v /\ v <> 0).
Proof.
  intros c.
  assert (HT : Test arch64 c (bytes "a") = Some (false, c))
    by (vm_compute; reflexivity).
  split; [exact HT|].
  exact (Test_true_iff_all_nonzero arch64 c c (bytes "a") false HT).
Defined.

(** [Test] returns on every well-formed filter that has buckets. *)
Lemma Test_total (a : arch) (c : CountingBloomFilter) (x : list byte) :
  filter_wf a c -> runnable c -> exists r, Test a c x = Some (r, c).
Proof.
  intros Hwf Hr. rewrite (Test_eq a c x (wf_hash _ _ Hwf) Hr).
  destruct (all_nonzero_is_Some (buckets c) (indices a c x)) as [r ->].
  - apply Hwf.
  - by apply indices_in_range.
  - by exists r.
Qed.

(** ** [Reset] *)

Lemma Reset_idempotent (c : CountingBloomFilter) : Reset (Reset c) = Reset c.
Proof. done. Qed.

Lemma Count_Reset (c : CountingBloomFilter) : Count (Reset c) = 0.
Proof. done. Qed.

Lemma Reset_wf (a : arch) (c : CountingBloomFilter) :
  filter_wf a c -> filter_wf a (Reset c).
Proof.
  intros [Hb Hm Hwd Hh Hk Hbuf Hcnt]. split; simpl; try done.
  - by apply Buckets_Reset_wf.
  - pose proof (uint_modulus_pos a). lia.
Qed.

(** C8, amended.  A second [Reset] changes nothing and after [Reset] the
    count is zero, on every filter; in a filter with at least one bucket
    and at least one round, [Test] answers false for every element after
    [Reset]. *)
Theorem Reset_idempotent_and_empty (a : arch) (c : CountingBloomFilter)
    (x : list byte) :
  Reset (Reset c) = Reset c /\
  Count (Reset c) = 0 /\
  (filter_wf a c -> 0 < m c -> 0 < k c ->
   Test a (Reset c) x = Some (false, Reset c)).
Proof.
  split; [done|]. split; [done|]. intros Hwf Hm Hk.
  pose proof (Reset_wf a c Hwf) as Hwf'.
  assert (Hr : runnable (Reset c)) by (left; simpl; lia).
  rewrite (Test_eq a (Reset c) x (wf_hash _ _ Hwf') Hr).
  pose proof (indices_in_range a (Reset c) x Hwf' Hr) as Hrange.
  unfold indices in *. simpl in *.
  destruct (Z.to_nat (k c)) as [|n] eqn:Hn; [lia|].
  rewrite indices_from_S in *. simpl.
  apply Forall_cons in Hrange as [Hi _].
  destruct (Buckets_Get_in_range _ _ (Buckets_Reset_wf _ (wf_buckets _ _ Hwf)) Hi)
    as (v & Hv & _).
  rewrite Hv. apply Buckets_Get_Reset in Hv as ->. done.
Qed.

Lemma Reset_idempotent_and_empty_witness :
  let c := fresh 5 3 4 in
  filter_wf arch64 c /\ 0 < m c /\ 0 < k c /\
  Reset (Reset c) = Reset c /\
  Count (Reset c) = 0 /\
  Test arch64 (Reset c) (bytes "a") = Some (false, Reset c).
Proof.
  intros c.
  assert (Hwf : filter_wf arch64 c) by (apply fresh_wf; lia).
  assert (Hm : 0 < m c) by reflexivity.
  assert (Hk : 0 < k c) by reflexivity.
  split; [exact Hwf|]. split; [exact Hm|]. split; [exact Hk|].
  destruct (Reset_idempotent_and_empty arch64 c (bytes "a")) as (H1 & H2 & H3).
  split; [exact H1|]. split; [exact H2|]. exact (H3 Hwf Hm Hk).
Defined.

(** As the claim is written it fails on the filters the constructor
    returns when a sizing helper answers zero: with [k = 0] the loop of
    [Test] runs no round and [Test] returns true after [Reset]; with
    [m = 0] the first round divides by zero and [Test] panics. *)
Lemma Reset_idempotent_and_empty_counterexample :
  (filter_wf arch64 (fresh 5 0 4) /\
   Test arch64 (Reset (fresh 5 0 4)) (bytes "a")
   = Some (true, Reset (fresh 5 0 4))) /\
  (filter_wf arch64 (fresh 0 3 4) /\
   Test arch64 (Reset (fresh 0 3 4)) (bytes "a") = None).
Proof.
  split; (split; [apply fresh_wf; lia|vm_compute; reflexivity]).
Qed.

(** ** Construction *)



(** When the call returns, the filter is the one [NewCountingBloomFilter]
    builds. *)
Lemma construct_Some {float64 : Type} (a : arch) (maxAlloc : Z)
    (OptimalM : Z -> float64 -> Z) (OptimalK : float64 -> Z)
    (n width : Z) (fpRate : float64) (c : CountingBloomFilter) :
  construct a maxAlloc OptimalM OptimalK n width fpRate = Some c ->
  c = NewCountingBloomFilter OptimalM OptimalK n width fpRate.
Proof.
  unfold construct, make_uints.
  destruct (_ && _); simpl; [|done]. by intros [= <-].
Qed.





(** ** The count *)

(** C10.  The count is decremented with no guard: after [Add] of "ab" in a
    filter of two buckets and two rounds, [TestAndRemove] succeeds for "a"
    and for "b", which were never added; the second one finds the count at
    zero and leaves it at the largest value of a [uint]. *)
Theorem Count_wraps_below_zero (a : arch) :
  exists c1 c2 c3,
    Add a (fresh 2 2 4) (bytes "ab") = Some c1 /\
    TestAndRemove a c1 (bytes "a") = Some (true, c2) /\
    Count c2 = 0 /\
    TestAndRemove a c2 (bytes "b") = Some (true, c3) /\
    Count c3 = uint_modulus a - 1.
Proof.
  destruct a; eexists _, _, _;
    (split; [vm_compute; reflexivity|]);
    (split; [vm_compute; reflexivity|]);
    (split; [vm_compute; reflexivity|]);
    split; vm_compute; reflexivity.
Qed.

Lemma call_count (a : arch) (c c' : CountingBloomFilter) (o : op)
    (r : option bool) :
  call a c o = Some (r, c') -> count c' = count_after a (count c) (o, r).
Proof.
  destruct o as [x|x|x|x|]; simpl.
  - unfold Test. destruct (hashKernel_Some c x) as (lo & up & ->). simpl.
    destruct (Test_loop _ _ _ _ _ _); simpl; [|done]. by intros [= <- <-].
  - unfold Add. destruct (hashKernel_Some c x) as (lo & up & ->). simpl.
    destruct (Add_loop _ _ _ _ _ _ _); simpl; [|done]. by intros [= <- <-].
  - unfold TestAndAdd. destruct (hashKernel_Some c x) as (lo & up & ->).
    simpl. destruct (TestAndAdd_loop _ _ _ _ _ _ _ _) as [[r' bs]|]; simpl;
      [|done].
    by intros [= <- <-].
  - unfold TestAndRemove. destruct (hashKernel_Some c x) as (lo & up & ->).
    simpl.
    destruct (TestAndRemove_scan _ _ _ _ _ _ _ _ _) as [[[|] buf]|]; simpl;
      [|by intros [= <- <-]|done].
    destruct (TestAndRemove_drain _ _); simpl; [|done]. by intros [= <- <-].
  - by intros [= <- <-].
Qed.

Lemma count_after_range (a : arch) (n : Z) (e : op * option bool) :
  0 <= n < uint_modulus a -> 0 <= count_after a n e < uint_modulus a.
Proof.
  intros Hn. unfold count_after. pose proof (uint_modulus_pos a).
  destruct (is_reset e); [lia|].
  destruct (is_add e); [apply to_uint_range|].
  destruct (is_removal e); [apply to_uint_range|done].
Qed.

Lemma since_reset_none (tr : list (op * option bool)) :
  existsb is_reset tr = false -> since_reset tr = tr.
Proof.
  induction tr as [|e tr IH]; [done|]. simpl.
  intros [He Htr]%orb_false_elim. by rewrite Htr, He.
Qed.

Lemma adds_performed_cons (e : op * option bool) (tr : list (op * option bool)) :
  adds_performed (e :: tr)
  = (if is_add e then 1 else 0) + adds_performed tr.
Proof.
  unfold adds_performed. rewrite filter_cons.
  destruct (is_add e); [rewrite decide_True by done|rewrite decide_False by done];
    simpl length; lia.
Qed.

Lemma removals_performed_cons (e : op * option bool)
    (tr : list (op * option bool)) :
  removals_performed (e :: tr)
  = (if is_removal e then 1 else 0) + removals_performed tr.
Proof.
  unfold removals_performed. rewrite filter_cons.
  destruct (is_removal e);
    [rewrite decide_True by done|rewrite decide_False by done];
    simpl length; lia.
Qed.

Lemma add_not_removal (e : op * option bool) :
  is_add e = true -> is_removal e = false.
Proof. by destruct e as [[] [[]|]]. Qed.

(** The count after a run, from the count at its start. *)
Lemma run_count (a : arch) (os : list op) (c c' : CountingBloomFilter)
    (tr : list (op * option bool)) :
  run a c os = Some (tr, c') ->
  0 <= count c < uint_modulus a ->
  count c'
  = ((if existsb is_reset tr then 0 else count c)
     + adds_performed (since_reset tr)
     - removals_performed (since_reset tr)) mod uint_modulus a.
Proof.
  revert c tr. induction os as [|o os IH]; intros c tr; simpl.
  - intros [= <- <-] Hc. simpl.
    rewrite Z.mod_small; unfold adds_performed, removals_performed; simpl; lia.
  - destruct (call a c o) as [[r c1]|] eqn:Ecall; simpl; [|done].
    destruct (run a c1 os) as [[tr' c2]|] eqn:Erun; simpl; [|done].
    intros [= <- <-] Hc.
    pose proof (call_count _ _ _ _ _ Ecall) as Hc1.
    pose proof (count_after_range a (count c) (o, r) Hc) as Hr1.
    rewrite <- Hc1 in Hr1.
    rewrite (IH _ _ Erun Hr1). cbn [existsb since_reset].
    destruct (existsb is_reset tr') eqn:Hex.
    { by rewrite orb_true_r. }
    rewrite orb_false_r, (since_reset_none _ Hex).
    rewrite Hc1. unfold count_after, to_uint.
    pose proof (uint_modulus_pos a).
    destruct (is_reset (o, r)); [done|].
    rewrite adds_performed_cons, removals_performed_cons.
    destruct (is_add (o, r)) eqn:Ha.
    + rewrite (add_not_removal _ Ha).
      rewrite <- Z.add_sub_assoc, Z.add_mod_idemp_l by lia. f_equal; lia.
    + destruct (is_removal (o, r)).
      * rewrite <- Z.add_sub_assoc, Z.add_mod_idemp_l by lia. f_equal; lia.
      * f_equal; lia.
Qed.

(** C5, amended.  After a run of public operations on a filter just
    constructed, the count is, modulo [2^w], the number of [Add] and
    [TestAndAdd] calls made since the last [Reset] minus the number of
    [TestAndRemove] calls since then that returned true. *)
Theorem Count_after_run (a : arch) {float64 : Type}
    (OptimalM : Z -> float64 -> Z) (OptimalK : float64 -> Z)
    (n width : Z) (fpRate : float64)
    (os : list op) (tr : list (op * option bool)) (c' : CountingBloomFilter) :
  run a (NewCountingBloomFilter OptimalM OptimalK n width fpRate) os
  = Some (tr, c') ->
  Count c'
  = (adds_performed (since_reset tr) - removals_performed (since_reset tr))
    mod uint_modulus a.
Proof.
  intros Hrun. unfold Count.
  rewrite (run_count _ _ _ _ _ Hrun); simpl.
  - by destruct (existsb is_reset tr).
  - pose proof (uint_modulus_pos a). lia.
Qed.

Lemma Count_after_run_witness :
  let os := [OpAdd (bytes "ab"); OpTestAndRemove (bytes "a"); OpReset;
             OpTestAndAdd (bytes "b")] in
  exists tr c',
    run arch64 (fresh 2 2 4) os = Some (tr, c') /\
    Count c'
    = (adds_performed (since_reset tr) - removals_performed (since_reset tr))
      mod uint_modulus arch64.
Proof.
  intros os. eexists _, _.
  assert (Hrun : run arch64 (fresh 2 2 4) os
                 = Some ([(OpAdd (bytes "ab"), None);
                          (OpTestAndRemove (bytes "a"), Some true);
                          (OpReset, None);
                          (OpTestAndAdd (bytes "b"), Some false)],
                         set_count
                           (set_buckets (set_indexBuffer (fresh 2 2 4) [0; 0])
                              (mkBuckets 2 4 [0; 2])) 1))
    by (vm_compute; reflexivity).
  split; [exact Hrun|].
  exact (Count_after_run arch64 _ _ 0 4 tt os _ _ Hrun).
Defined.

(** As the claim is written it fails twice: a [Reset] puts the count back
    to zero whatever was added, and a removal at zero wraps the count. *)
Lemma Count_after_run_counterexample :
  (exists tr c',
     run arch64 (fresh 2 2 4) [OpAdd (bytes "a"); OpReset] = Some (tr, c') /\
     Count c' = 0 /\
     adds_performed tr - removals_performed tr = 1) /\
  (exists tr c',
     run arch64 (fresh 2 2 4)
       [OpAdd (bytes "ab"); OpTestAndRemove (bytes "a");
        OpTestAndRemove (bytes "b")] = Some (tr, c') /\
     Count c' = 2 ^ 64 - 1 /\
     adds_performed tr - removals_performed tr = -1).
Proof.
  split; eexists _, _;
    (split; [vm_compute; reflexivity|]);
    split; vm_compute; reflexivity.
Qed.

(** ** The hash kernel and the indices of the rounds *)

Lemma index_at_no_wrap (a : arch) (mm lower upper i : Z) :
  0 <= lower + upper * i < uint_modulus a ->
  index_at a mm lower upper i = spec_index mm lower upper i.
Proof.
  intros H. unfold index_at, spec_index.
  by rewrite (Z.mod_small _ (uint_modulus a)) by done.
Qed.

Lemma indices_no_wrap (a : arch) (c : CountingBloomFilter) (x : list byte) :
  0 <= k c ->
  (forall i, 0 <= i < k c ->
     lower_half (digest x) + upper_half (digest x) * i < uint_modulus a) ->
  indices a c x = spec_indices c x.
Proof.
  intros Hk Hsmall. unfold indices, indices_from, spec_indices.
  rewrite Z2Nat.id by done.
  apply map_ext_in. intros i Hi%list_elem_of_In%elem_of_seqZ.
  apply index_at_no_wrap.
  pose proof (lower_half_range (digest x)).
  pose proof (upper_half_range _ (digest_range x)).
  split; [nia|]. apply Hsmall. lia.
Qed.

(** On a 64-bit target no index wraps as long as [k <= 2^32 + 1]. *)
Lemma indices_arch64 (c : CountingBloomFilter) (x : list byte) :
  0 <= k c <= 2 ^ 32 + 1 -> indices arch64 c x = spec_indices c x.
Proof.
  intros Hk. apply indices_no_wrap; [lia|]. intros i Hi.
  pose proof (lower_half_range (digest x)).
  pose proof (upper_half_range _ (digest_range x)).
  change (uint_modulus arch64) with (2 ^ 64).
  assert (upper_half (digest x) * i <= (2 ^ 32 - 1) * 2 ^ 32)
    by (apply Z.mul_le_mono_nonneg; lia).
  lia.
Qed.

(** C6, amended.  Every operation takes one digest [d] of the element, its
    halves [lower = d mod 2^32] and [upper = d / 2^32], and works on the
    buckets [((lower + upper * i) mod 2^w) mod m] of the rounds [i] in
    [[0, k)], [w] being the width of [uint]: [Test] reads them up to the
    first zero one, [Add] increments them, [TestAndAdd] reads and increments
    each in turn, [TestAndRemove] reads them all and decrements them all if
    none is zero.  The index is [(lower + upper * i) mod m] when
    [lower + upper * i] does not reach [2^w], as on a 64-bit target with
    [k <= 2^32 + 1]. *)
Theorem hash_kernel_indices (a : arch) (c : CountingBloomFilter)
    (x : list byte) :
  filter_wf a c -> runnable c ->
  let d := digest x in
  let lower := lower_half d in
  let upper := upper_half d in
  hashKernel c x = Some (lower, upper, c) /\
  (0 <= lower < 2 ^ 32 /\ 0 <= upper < 2 ^ 32 /\ d = upper * 2 ^ 32 + lower) /\
  indices a c x
  = map (fun i => ((lower + upper * i) mod 2 ^ uint_bits a) mod m c)
        (seqZ 0 (k c)) /\
  Test a c x
  = (r ← all_nonzero (buckets c) (indices a c x); Some (r, c)) /\
  Add a c x
  = (bs ← Increment_all (buckets c) (indices a c x) 1;
     Some (set_count (set_buckets c bs) (uint_add a (count c) 1))) /\
  TestAndAdd a c x
  = ('(member, bs) ← test_add_all (buckets c) (indices a c x) true;
     Some (member, set_count (set_buckets c bs) (uint_add a (count c) 1))) /\
  TestAndRemove a c x
  = (member ← scan_all (buckets c) (indices a c x) true;
     if (member : bool) then
       bs ← Increment_all (buckets c) (indices a c x) (-1);
       Some (true,
             set_count (set_buckets (set_indexBuffer c (indices a c x)) bs)
               (to_uint a (count c - 1)))
     else Some (false, set_indexBuffer c (indices a c x))) /\
  ((forall i, 0 <= i < k c -> lower + upper * i < 2 ^ uint_bits a) ->
   indices a c x = spec_indices c x) /\
  (a = arch64 -> k c <= 2 ^ 32 + 1 -> indices a c x = spec_indices c x).
Proof.
  intros Hwf Hr d lower upper.
  pose proof (wf_hash _ _ Hwf) as Hh. pose proof (wf_k _ _ Hwf) as Hk.
  split; [by apply hashKernel_digest|].
  split.
  { split; [apply lower_half_range|].
    split; [apply upper_half_range, digest_range|apply halves_digest]. }
  split.
  { unfold indices, indices_from. by rewrite Z2Nat.id by done. }
  split; [by apply Test_eq|].
  split; [by apply Add_eq|].
  split; [by apply TestAndAdd_eq|].
  split; [apply TestAndRemove_eq; [done|done|apply Hwf]|].
  split.
  - intros Hsmall. by apply indices_no_wrap.
  - intros -> Hle. apply indices_arch64. lia.
Qed.

Lemma hash_kernel_indices_witness :
  let c := fresh 3 2 4 in
  let x := bytes "a" in
  filter_wf arch64 c /\ runnable c /\
  hashKernel c x = Some (2248259518, 2942549324, c) /\
  indices arch64 c x = [1; 0] /\
  indices arch64 c x = spec_indices c x.
Proof.
  intros c x.
  assert (Hwf : filter_wf arch64 c) by (apply fresh_wf; lia).
  assert (Hr : runnable c) by (left; discriminate).
  destruct (hash_kernel_indices arch64 c x Hwf Hr)
    as (Hh & _ & _ & _ & _ & _ & _ & _ & H64).
  split; [exact Hwf|]. split; [exact Hr|].
  split; [exact Hh|].
  split; [vm_compute; reflexivity|].
  apply H64; [reflexivity|discriminate].
Defined.

(** On a 32-bit target the index of a round is not the one the claim
    gives: for "a", with three buckets and two rounds, [lower + upper] is
    5190808842, which wraps to 895841546; the code takes bucket 2 in round
    1, the claim bucket 0, and [Add] leaves the buckets at [0; 1; 1] where
    the indices of the claim give [1; 1; 0]. *)
Lemma hash_kernel_indices_counterexample :
  let c := fresh 3 2 4 in
  let d := digest (bytes "a") in
  lower_half d + upper_half d * 1 = 5190808842 /\
  bucket_index arch32 (lower_half d) (upper_half d) 1 (m c) = Some 2 /\
  spec_index (m c) (lower_half d) (upper_half d) 1 = 0 /\
  (c' ← Add arch32 c (bytes "a"); Some (counters (buckets c')))
  = Some [0; 1; 1] /\
  (bs ← Increment_all (buckets c) (spec_indices c (bytes "a")) 1;
   Some (counters bs))
  = Some [1; 1; 0].
Proof. repeat split; vm_compute; reflexivity. Qed.


(** ** The invariant along a run *)

Lemma TestAndAdd_runnable (a : arch) (c c' : CountingBloomFilter)
    (x : list byte) (r : bool) :
  TestAndAdd a c x = Some (r, c') -> runnable c.
Proof.
  intros H. destruct (Z.eq_dec (m c) 0) as [Hm|Hm]; [right|by left].
  unfold TestAndAdd in H. destruct (hashKernel_Some c x) as (lo & up & Hh).
  rewrite Hh in H. simpl in H. rewrite Hm in H.
  by destruct (Z.to_nat (k c)).
Qed.

Lemma TestAndRemove_runnable (a : arch) (c c' : CountingBloomFilter)
    (x : list byte) (r : bool) :
  TestAndRemove a c x = Some (r, c') -> runnable c.
Proof.
  intros H. destruct (Z.eq_dec (m c) 0) as [Hm|Hm]; [right|by left].
  unfold TestAndRemove in H. destruct (hashKernel_Some c x) as (lo & up & Hh).
  rewrite Hh in H. simpl in H. rewrite Hm in H.
  by destruct (Z.to_nat (k c)).
Qed.

Lemma Test_wf (a : arch) (c c' : CountingBloomFilter) (x : list byte)
    (r : bool) :
  filter_wf a c -> Test a c x = Some (r, c') -> c' = c.
Proof.
  intros Hwf H. pose proof (Test_runnable _ _ _ _ _ H) as Hr.
  rewrite (Test_eq a c x (wf_hash _ _ Hwf) Hr) in H.
  destruct (all_nonzero _ _); simpl in H; congruence.
Qed.

Lemma TestAndAdd_wf (a : arch) (c c' : CountingBloomFilter) (x : list byte)
    (r : bool) :
  filter_wf a c -> TestAndAdd a c x = Some (r, c') -> filter_wf a c'.
Proof.
  intros Hwf H. pose proof (TestAndAdd_runnable _ _ _ _ _ H) as Hr.
  rewrite (TestAndAdd_eq a c x (wf_hash _ _ Hwf) Hr) in H.
  rewrite test_add_all_eq in H by apply Hwf.
  destruct (all_nonzero _ _) as [r'|]; simpl in H; [|done].
  destruct (Increment_all _ _ 1) as [bs|] eqn:Hbs; simpl in H; [|done].
  injection H as <- <-.
  destruct (Increment_all_shape _ _ _ _ Hbs) as (Hc & Hw & _).
  destruct Hwf as [Hb Hm Hwd Hh Hk Hbuf Hcnt].
  split; simpl; try done; try congruence.
  - by eapply Increment_all_wf.
  - apply to_uint_range.
Qed.

Lemma TestAndRemove_wf (a : arch) (c c' : CountingBloomFilter)
    (x : list byte) (r : bool) :
  filter_wf a c -> TestAndRemove a c x = Some (r, c') -> filter_wf a c'.
Proof.
  intros Hwf H. pose proof (TestAndRemove_runnable _ _ _ _ _ H) as Hr.
  rewrite (TestAndRemove_eq a c x (wf_hash _ _ Hwf) Hr
             (wf_indexBuffer _ _ Hwf)) in H.
  pose proof (length_indices a c x) as Hlen.
  destruct Hwf as [Hb Hm Hwd Hh Hk Hbuf Hcnt].
  destruct (scan_all _ _ _) as [[|]|]; simpl in H; [| |done].
  - destruct (Increment_all _ _ (-1)) as [bs|] eqn:Hbs; simpl in H; [|done].
    injection H as <- <-.
    destruct (Increment_all_shape _ _ _ _ Hbs) as (Hc & Hw & _).
    split; simpl; try done; try congruence.
    + by eapply Increment_all_wf.
    + apply to_uint_range.
  - injection H as <- <-. by split.
Qed.

Lemma call_wf (a : arch) (c c' : CountingBloomFilter) (o : op)
    (r : option bool) :
  filter_wf a c -> call a c o = Some (r, c') -> filter_wf a c'.
Proof.
  intros Hwf. destruct o as [x|x|x|x|]; simpl.
  - destruct (Test a c x) as [[r' c1]|] eqn:E; simpl; [|done].
    intros [= <- <-]. by rewrite (Test_wf _ _ _ _ _ Hwf E).
  - destruct (Add a c x) as [c1|] eqn:E; simpl; [|done].
    intros [= <- <-]. by eapply Add_wf.
  - destruct (TestAndAdd a c x) as [[r' c1]|] eqn:E; simpl; [|done].
    intros [= <- <-]. by eapply TestAndAdd_wf.
  - destruct (TestAndRemove a c x) as [[r' c1]|] eqn:E; simpl; [|done].
    intros [= <- <-]. by eapply TestAndRemove_wf.
  - intros [= <- <-]. by apply Reset_wf.
Qed.

(** Every state a run of public operations reaches from a well-formed
    filter is well-formed. *)
Lemma run_wf (a : arch) (os : list op) (c c' : CountingBloomFilter)
    (tr : list (op * option bool)) :
  filter_wf a c -> run a c os = Some (tr, c') -> filter_wf a c'.
Proof.
  revert c tr. induction os as [|o os IH]; intros c tr Hwf; simpl.
  - by intros [= <- <-].
  - destruct (call a c o) as [[r c1]|] eqn:Ecall; simpl; [|done].
    destruct (run a c1 os) as [[tr' c2]|] eqn:Erun; simpl; [|done].
    intros [= <- <-]. eapply IH; [|done]. by eapply call_wf.
Qed.

(** With buckets, no call of a run panics. *)
Lemma call_total (a : arch) (c : CountingBloomFilter) (o : op) :
  filter_wf a c -> runnable c -> is_Some (call a c o).
Proof.
  intros Hwf Hr. destruct o as [x|x|x|x|]; simpl.
  - destruct (Test_total a c x Hwf Hr) as [r ->]. by eexists.
  - destruct (Add_total a c x Hwf Hr) as [c1 ->]. by eexists.
  - rewrite (TestAndAdd_eq a c x (wf_hash _ _ Hwf) Hr).
    rewrite test_add_all_eq by apply Hwf.
    pose proof (indices_in_range a c x Hwf Hr) as Hrange.
    destruct (all_nonzero_is_Some _ _ (wf_buckets _ _ Hwf) Hrange) as [r ->].
    destruct (Increment_all_is_Some _ _ 1 (wf_buckets _ _ Hwf) Hrange)
      as [bs ->].
    by eexists.
  - destruct (TestAndRemove_total a c x Hwf Hr) as [[r c1] ->]. by eexists.
  - by eexists.
Qed.


(** * Further properties of the operations *)

(** ** What a run keeps *)

Lemma call_frame (a : arch) (c c' : CountingBloomFilter) (o : op)
    (r : option bool) :
  call a c o = Some (r, c') -> m c' = m c /\ k c' = k c /\ b c' = b c.
Proof.
  destruct o as [x|x|x|x|]; simpl.
  - unfold Test. destruct (hashKernel_Some c x) as (lo & up & ->). simpl.
    destruct (Test_loop _ _ _ _ _ _); simpl; [|done]. by intros [= <- <-].
  - unfold Add. destruct (hashKernel_Some c x) as (lo & up & ->). simpl.
    destruct (Add_loop _ _ _ _ _ _ _); simpl; [|done]. by intros [= <- <-].
  - unfold TestAndAdd. destruct (hashKernel_Some c x) as (lo & up & ->).
    simpl. destruct (TestAndAdd_loop _ _ _ _ _ _ _ _) as [[r' bs]|]; simpl;
      [|done].
    by intros [= <- <-].
  - unfold TestAndRemove. destruct (hashKernel_Some c x) as (lo & up & ->).
    simpl.
    destruct (TestAndRemove_scan _ _ _ _ _ _ _ _ _) as [[[|] buf]|]; simpl;
      [|by intros [= <- <-]|done].
    destruct (TestAndRemove_drain _ _); simpl; [|done]. by intros [= <- <-].
  - by intros [= <- <-].
Qed.

(** X1.  From a filter just constructed, with sizing helpers that answer
    numbers that are not negative, every run of public operations ends in a
    well-formed filter: as many counters as [m], each within
    [[0, 2^b - 1]], a scratch buffer of [k] entries, the hash reset, the
    count within the range of [uint]. *)
Theorem run_from_construction_wf (a : arch) {float64 : Type}
    (OptimalM : Z -> float64 -> Z) (OptimalK : float64 -> Z)
    (n width : Z) (fpRate : float64)
    (os : list op) (tr : list (op * option bool)) (c' : CountingBloomFilter) :
  0 <= OptimalM n fpRate -> 0 <= OptimalK fpRate -> 0 <= width ->
  run a (NewCountingBloomFilter OptimalM OptimalK n width fpRate) os
  = Some (tr, c') ->
  filter_wf a c'.
Proof.
  intros Hm Hk Hw Hrun.
  eapply run_wf; [|exact Hrun]. by apply NewCountingBloomFilter_wf.
Qed.

Lemma run_from_construction_wf_witness :
  let os := [OpAdd (bytes "ab"); OpTestAndRemove (bytes "a"); OpReset;
             OpTestAndAdd (bytes "b")] in
  let c' := set_count
              (set_buckets (set_indexBuffer (fresh 2 2 4) [0; 0])
                 (mkBuckets 2 4 [0; 2])) 1 in
  run arch64 (fresh 2 2 4) os
  = Some ([(OpAdd (bytes "ab"), None);
           (OpTestAndRemove (bytes "a"), Some true);
           (OpReset, None);
           (OpTestAndAdd (bytes "b"), Some false)], c') /\
  filter_wf arch64 c'.
Proof.
  intros os c'.
  assert (Hrun : run arch64 (fresh 2 2 4) os
                 = Some ([(OpAdd (bytes "ab"), None);
                          (OpTestAndRemove (bytes "a"), Some true);
                          (OpReset, None);
                          (OpTestAndAdd (bytes "b"), Some false)], c'))
    by (vm_compute; reflexivity).
  split; [exact Hrun|].
  refine (run_from_construction_wf arch64 (fun _ _ => 2) (fun _ => 2)
            0 4 tt os _ c' _ _ _ Hrun); simpl; lia.
Defined.

(** X2.  On a well-formed filter with at least one bucket no run of public
    operations panics: every index is reduced modulo [m], so no bucket
    access is out of range. *)
Theorem run_never_panics (a : arch) (os : list op) (c : CountingBloomFilter) :
  filter_wf a c -> 0 < m c ->
  exists tr c', run a c os = Some (tr, c').
Proof.
  revert c. induction os as [|o os IH]; intros c Hwf Hm; simpl.
  - by eexists _, _.
  - destruct (call_total a c o Hwf) as [[r c1] Hcall]; [left; lia|].
    rewrite Hcall. simpl.
    destruct (call_frame _ _ _ _ _ Hcall) as (Hm1 & _ & _).
    destruct (IH c1) as (tr & c' & ->);
      [by eapply call_wf|lia|]. simpl. by eexists _, _.
Qed.

Lemma run_never_panics_witness :
  let c := fresh 2 2 4 in
  let os := [OpAdd (bytes "ab"); OpTestAndRemove (bytes "a")] in
  filter_wf arch64 c /\ 0 < m c /\
  exists tr c', run arch64 c os = Some (tr, c').
Proof.
  intros c os.
  assert (Hwf : filter_wf arch64 c) by (apply fresh_wf; lia).
  assert (Hm : 0 < m c) by reflexivity.
  split; [exact Hwf|]. split; [exact Hm|].
  exact (run_never_panics arch64 os c Hwf Hm).
Defined.

(** X3.  No public operation changes [m], [k] or [b]: after any run,
    [Capacity] and [K] answer what they answered before it. *)
Theorem run_keeps_parameters (a : arch) (os : list op)
    (c c' : CountingBloomFilter) (tr : list (op * option bool)) :
  run a c os = Some (tr, c') ->
  Capacity c' = Capacity c /\ K c' = K c /\ b c' = b c.
Proof.
  unfold Capacity, K. revert c tr.
  induction os as [|o os IH]; intros c tr; simpl.
  - by intros [= <- <-].
  - destruct (call a c o) as [[r c1]|] eqn:Ecall; simpl; [|done].
    destruct (run a c1 os) as [[tr' c2]|] eqn:Erun; simpl; [|done].
    intros [= <- <-].
    destruct (call_frame _ _ _ _ _ Ecall) as (Hm & Hk & Hb).
    destruct (IH _ _ Erun) as (Hm' & Hk' & Hb'). split_and!; congruence.
Qed.

Lemma run_keeps_parameters_witness :
  let c := fresh 2 2 4 in
  let os := [OpAdd (bytes "ab"); OpReset] in
  let c' := set_indexBuffer (fresh 2 2 4) [0; 0] in
  run arch64 c os = Some ([(OpAdd (bytes "ab"), None); (OpReset, None)], c') /\
  Capacity c' = Capacity c /\ K c' = K c /\ b c' = b c.
Proof.
  intros c os c'.
  assert (Hrun : run arch64 c os
                 = Some ([(OpAdd (bytes "ab"), None); (OpReset, None)], c'))
    by (vm_compute; reflexivity).
  split; [exact Hrun|].
  exact (run_keeps_parameters arch64 os c c' _ Hrun).
Defined.

(** X4.  A filter constructed with [m = 0] and at least one round is of no
    use: [Test], [Add], [TestAndAdd] and [TestAndRemove] all panic on the
    division by [m], for every element. *)
Theorem no_buckets_every_call_panics (a : arch) (c : CountingBloomFilter)
    (x : list byte) :
  m c = 0 -> 0 < k c ->
  Test a c x = None /\ Add a c x = None /\
  TestAndAdd a c x = None /\ TestAndRemove a c x = None.
Proof.
  intros Hm Hk. unfold Test, Add, TestAndAdd, TestAndRemove.
  destruct (hashKernel_Some c x) as (lo & up & ->). simpl.
  destruct (Z.to_nat (k c)) as [|n] eqn:Hn; [lia|].
  simpl. by rewrite Hm.
Qed.

Lemma no_buckets_every_call_panics_witness :
  let c := fresh 0 7 4 in
  m c = 0 /\ 0 < k c /\
  Test arch64 c (bytes "a") = None /\ Add arch64 c (bytes "a") = None /\
  TestAndAdd arch64 c (bytes "a") = None /\
  TestAndRemove arch64 c (bytes "a") = None.
Proof.
  intros c.
  assert (Hm : m c = 0) by reflexivity.
  assert (Hk : 0 < k c) by reflexivity.
  split; [exact Hm|]. split; [exact Hk|].
  exact (no_buckets_every_call_panics arch64 c (bytes "a") Hm Hk).
Defined.

(** X5.  With no round ([k = 0]) the filter holds nothing back: [Test]
    answers true for every element, [TestAndAdd] and [TestAndRemove] return
    true and only move the count, [Add] only moves the count; no bucket is
    read or written, even when there is none. *)
Theorem zero_rounds (a : arch) (c : CountingBloomFilter) (x : list byte) :
  filter_wf a c -> k c = 0 ->
  Test a c x = Some (true, c) /\
  Add a c x = Some (set_count c (uint_add a (count c) 1)) /\
  TestAndAdd a c x = Some (true, set_count c (uint_add a (count c) 1)) /\
  TestAndRemove a c x = Some (true, set_count c (to_uint a (count c - 1))).
Proof.
  intros Hwf Hk.
  assert (Hr : runnable c) by (right; by rewrite Hk).
  pose proof (wf_hash _ _ Hwf) as Hh.
  pose proof (wf_indexBuffer _ _ Hwf) as Hbuf.
  assert (Hidx : indices a c x = []).
  { unfold indices. by rewrite Hk. }
  rewrite (Test_eq a c x Hh Hr), (Add_eq a c x Hh Hr),
    (TestAndAdd_eq a c x Hh Hr), (TestAndRemove_eq a c x Hh Hr Hbuf), Hidx.
  simpl. rewrite Hk in Hbuf. simpl in Hbuf.
  apply nil_length_inv in Hbuf.
  destruct c as [bs h mm kk bb cnt buf]; simpl in *. by subst.
Qed.

Lemma zero_rounds_witness :
  let c := fresh 0 0 4 in
  filter_wf arch64 c /\ k c = 0 /\
  Test arch64 c (bytes "a") = Some (true, c) /\
  Add arch64 c (bytes "a")
  = Some (set_count c (uint_add arch64 (count c) 1)) /\
  TestAndAdd arch64 c (bytes "a")
  = Some (true, set_count c (uint_add arch64 (count c) 1)) /\
  TestAndRemove arch64 c (bytes "a")
  = Some (true, set_count c (to_uint arch64 (count c - 1))).
Proof.
  intros c.
  assert (Hwf : filter_wf arch64 c) by (apply fresh_wf; lia).
  assert (Hk : k c = 0) by reflexivity.
  split; [exact Hwf|]. split; [exact Hk|].
  exact (zero_rounds arch64 c (bytes "a") Hwf Hk).
Defined.

(** ** Membership after an insertion *)

Lemma Buckets_max_positive (bs : Buckets) :
  0 < bucketWidth bs -> 1 <= Buckets_max bs.
Proof.
  intros Hw. unfold Buckets_max.
  pose proof (Z.pow_le_mono_r 2 1 (bucketWidth bs) ltac:(lia) ltac:(lia)).
  change (2 ^ 1) with 2 in *. lia.
Qed.

(** With a bit or more a bucket, the buckets just incremented are not
    zero, refused increments or not. *)
Lemma Increment_all_nonzero (bs bs' : Buckets) (l : list Z) (j : Z) :
  Buckets_wf bs -> 0 < bucketWidth bs ->
  Increment_all bs l 1 = Some bs' -> In j l ->
  exists v, Buckets_Get bs' j = Some v /\ v <> 0.
Proof.
  intros Hwf Hw Hall Hj.
  pose proof (Increment_all_in_range _ _ _ _ Hall) as Hrange.
  pose proof (proj1 (Forall_forall _ _) Hrange j
                (proj2 (list_elem_of_In _ _) Hj)) as Hjr.
  destruct (Buckets_Get_in_range _ j Hwf Hjr) as (v & Hv & Hvr).
  rewrite (Buckets_Get_Increment_all_up _ _ _ _ _ Hwf Hall Hv).
  eexists; split; [done|].
  pose proof (Buckets_max_positive bs Hw).
  pose proof (occurrences_pos j l Hj). lia.
Qed.

(** X6.  With at least one bit a bucket, [Test] of an element returns true
    right after its [Add], whether or not a counter saturated. *)
Theorem Add_then_Test (a : arch) (c c' : CountingBloomFilter) (x : list byte) :
  filter_wf a c -> 0 < b c ->
  Add a c x = Some c' ->
  Test a c' x = Some (true, c').
Proof.
  intros Hwf Hb HAdd.
  pose proof (Add_runnable _ _ _ _ HAdd) as Hr.
  pose proof (Add_wf _ _ _ _ Hwf HAdd) as Hwf'.
  destruct (Add_spec _ _ _ _ Hwf HAdd) as (bs & Hbs & ->).
  apply present_Test; [done|exact Hr|].
  intros j Hj. simpl. rewrite (indices_same a c) in Hj by done.
  eapply Increment_all_nonzero; [apply Hwf| |exact Hbs|exact Hj].
  by rewrite (wf_b _ _ Hwf).
Qed.

Lemma Add_then_Test_witness :
  let c := fresh 2 2 1 in
  let c1 := set_count (set_buckets c (mkBuckets 2 1 [1; 0])) 1 in
  filter_wf arch64 c1 /\ 0 < b c1 /\
  Add arch64 c1 (bytes "ab")
  = Some (set_count (set_buckets c (mkBuckets 2 1 [1; 1])) 2) /\
  Add_saturates arch64 c1 (bytes "ab") = true /\
  Test arch64 (set_count (set_buckets c (mkBuckets 2 1 [1; 1])) 2)
    (bytes "ab")
  = Some (true, set_count (set_buckets c (mkBuckets 2 1 [1; 1])) 2).
Proof.
  intros c c1.
  assert (Hwf : filter_wf arch64 c1).
  { apply (Add_wf arch64 c c1 (bytes "a")).
    - apply fresh_wf; lia.
    - vm_compute; reflexivity. }
  assert (Hb : 0 < b c1) by reflexivity.
  assert (HAdd : Add arch64 c1 (bytes "ab")
                 = Some (set_count (set_buckets c (mkBuckets 2 1 [1; 1])) 2))
    by (vm_compute; reflexivity).
  split; [exact Hwf|]. split; [exact Hb|]. split; [exact HAdd|].
  split; [vm_compute; reflexivity|].
  exact (Add_then_Test arch64 c1 _ (bytes "ab") Hwf Hb HAdd).
Defined.

(** X7.  [Add] takes no member away: an element for which [Test] returns
    true still tests true after the [Add] of any element. *)
Theorem Add_keeps_members (a : arch) (c c0 c' : CountingBloomFilter)
    (x y : list byte) :
  filter_wf a c ->
  Test a c x = Some (true, c0) ->
  Add a c y = Some c' ->
  Test a c' x = Some (true, c').
Proof.
  intros Hwf HT HAdd.
  pose proof (Add_runnable _ _ _ _ HAdd) as Hr.
  pose proof (Add_wf _ _ _ _ Hwf HAdd) as Hwf'.
  rewrite (Test_eq a c x (wf_hash _ _ Hwf) Hr) in HT.
  destruct (all_nonzero _ _) as [[|]|] eqn:Hall; simpl in HT; try done.
  pose proof (proj1 (all_nonzero_true _ _) Hall) as Hp0.
  pose proof (Add_present_other a c c' x y Hwf HAdd Hp0) as Hp.
  apply present_Test; [done| |done].
  destruct (Add_spec _ _ _ _ Hwf HAdd) as (bs & _ & ->). exact Hr.
Qed.

Lemma Add_keeps_members_witness :
  let c := fresh 5 3 4 in
  let c1 := set_count (set_buckets c (mkBuckets 5 4 [0; 1; 1; 1; 0])) 1 in
  let c2 := set_count (set_buckets c (mkBuckets 5 4 [1; 2; 2; 1; 0])) 2 in
  filter_wf arch64 c1 /\
  Test arch64 c1 (bytes "a") = Some (true, c1) /\
  Add arch64 c1 (bytes "b") = Some c2 /\
  Test arch64 c2 (bytes "a") = Some (true, c2).
Proof.
  intros c c1 c2.
  assert (Hwf : filter_wf arch64 c1).
  { apply (Add_wf arch64 c c1 (bytes "a")).
    - apply fresh_wf; lia.
    - vm_compute; reflexivity. }
  assert (HT : Test arch64 c1 (bytes "a") = Some (true, c1))
    by (vm_compute; reflexivity).
  assert (HAdd : Add arch64 c1 (bytes "b") = Some c2)
    by (vm_compute; reflexivity).
  split; [exact Hwf|]. split; [exact HT|]. split; [exact HAdd|].
  exact (Add_keeps_members arch64 c1 c1 c2 (bytes "a") (bytes "b")
           Hwf HT HAdd).
Defined.

(** ** What [Add] and [TestAndRemove] do to a bucket *)

(** X8.  After [Add] a bucket holds its value plus the number of rounds of
    the element that fall on it, capped at [2^b - 1]; the count is one more,
    modulo [2^w]. *)
Theorem Add_effect (a : arch) (c c' : CountingBloomFilter) (x : list byte)
    (j v : Z) :
  filter_wf a c ->
  Add a c x = Some c' ->
  Buckets_Get (buckets c) j = Some v ->
  Buckets_Get (buckets c') j
  = Some (Z.min (2 ^ b c - 1) (v + occurrences j (indices a c x))) /\
  Count c' = (Count c + 1) mod 2 ^ uint_bits a.
Proof.
  intros Hwf HAdd Hv.
  destruct (Add_spec _ _ _ _ Hwf HAdd) as (bs & Hbs & ->). simpl.
  split; [|done].
  rewrite (Buckets_Get_Increment_all_up _ _ _ _ _ (wf_buckets _ _ Hwf) Hbs Hv).
  unfold Buckets_max. by rewrite (wf_b _ _ Hwf).
Qed.

Lemma Add_effect_witness :
  let c := fresh 2 2 4 in
  let c1 := set_count (set_buckets c (mkBuckets 2 4 [2; 0])) 1 in
  filter_wf arch64 c /\
  Add arch64 c (bytes "a") = Some c1 /\
  Buckets_Get (buckets c) 0 = Some 0 /\
  Buckets_Get (buckets c1) 0
  = Some (Z.min (2 ^ b c - 1)
            (0 + occurrences 0 (indices arch64 c (bytes "a")))) /\
  Count c1 = (Count c + 1) mod 2 ^ uint_bits arch64.
Proof.
  intros c c1.
  assert (Hwf : filter_wf arch64 c) by (apply fresh_wf; lia).
  assert (HAdd : Add arch64 c (bytes "a") = Some c1)
    by (vm_compute; reflexivity).
  assert (Hv : Buckets_Get (buckets c) 0 = Some 0) by reflexivity.
  split; [exact Hwf|]. split; [exact HAdd|]. split; [exact Hv|].
  exact (Add_effect arch64 c c1 (bytes "a") 0 0 Hwf HAdd Hv).
Defined.

(** X9.  When [TestAndRemove] returns true every bucket of the element held
    a value that was not zero, and after the call a bucket holds its value
    minus the number of rounds of the element that fall on it, held at
    zero; the count is one less, modulo [2^w]. *)
Theorem TestAndRemove_true_effect (a : arch) (c c' : CountingBloomFilter)
    (x : list byte) (j v : Z) :
  filter_wf a c ->
  TestAndRemove a c x = Some (true, c') ->
  Buckets_Get (buckets c) j = Some v ->
  present a c x /\
  Buckets_Get (buckets c') j
  = Some (Z.max 0 (v - occurrences j (indices a c x))) /\
  Count c' = (Count c - 1) mod 2 ^ uint_bits a.
Proof.
  intros Hwf H Hv.
  pose proof (TestAndRemove_runnable _ _ _ _ _ H) as Hr.
  rewrite (TestAndRemove_eq a c x (wf_hash _ _ Hwf) Hr
             (wf_indexBuffer _ _ Hwf)) in H.
  pose proof (indices_in_range a c x Hwf Hr) as Hrange.
  rewrite (scan_all_all_nonzero _ _ (wf_buckets _ _ Hwf) Hrange) in H.
  destruct (all_nonzero _ _) as [[|]|] eqn:Hall; simpl in H; try done.
  destruct (Increment_all _ _ (-1)) as [bs|] eqn:Hbs; simpl in H; [|done].
  injection H as <-. simpl.
  split; [exact (proj1 (all_nonzero_true _ _) Hall)|]. split; [|done].
  exact (Buckets_Get_Increment_all_down _ _ _ _ _ (wf_buckets _ _ Hwf) Hbs Hv).
Qed.

Lemma TestAndRemove_true_effect_witness :
  let c := fresh 2 2 4 in
  let c1 := set_count (set_buckets c (mkBuckets 2 4 [1; 1])) 1 in
  let c2 := set_count
              (set_buckets (set_indexBuffer c [0; 0]) (mkBuckets 2 4 [0; 1]))
              0 in
  filter_wf arch64 c1 /\
  TestAndRemove arch64 c1 (bytes "a") = Some (true, c2) /\
  Buckets_Get (buckets c1) 0 = Some 1 /\
  present arch64 c1 (bytes "a") /\
  Buckets_Get (buckets c2) 0
  = Some (Z.max 0 (1 - occurrences 0 (indices arch64 c1 (bytes "a")))) /\
  Count c2 = (Count c1 - 1) mod 2 ^ uint_bits arch64.
Proof.
  intros c c1 c2.
  assert (Hwf : filter_wf arch64 c1).
  { apply (Add_wf arch64 c c1 (bytes "ab")).
    - apply fresh_wf; lia.
    - vm_compute; reflexivity. }
  assert (HR : TestAndRemove arch64 c1 (bytes "a") = Some (true, c2))
    by (vm_compute; reflexivity).
  assert (Hv : Buckets_Get (buckets c1) 0 = Some 1) by reflexivity.
  split; [exact Hwf|]. split; [exact HR|]. split; [exact Hv|].
  exact (TestAndRemove_true_effect arch64 c1 c2 (bytes "a") 0 1 Hwf HR Hv).
Defined.

(** X10.  [TestAndRemove] returns what [Test] returns on the filter it is
    called on: it removes exactly the elements [Test] reports as members. *)
Theorem TestAndRemove_answers_as_Test (a : arch) (c c' : CountingBloomFilter)
    (x : list byte) (r : bool) :
  filter_wf a c ->
  TestAndRemove a c x = Some (r, c') ->
  Test a c x = Some (r, c).
Proof.
  intros Hwf H.
  pose proof (TestAndRemove_runnable _ _ _ _ _ H) as Hr.
  rewrite (TestAndRemove_eq a c x (wf_hash _ _ Hwf) Hr
             (wf_indexBuffer _ _ Hwf)) in H.
  pose proof (indices_in_range a c x Hwf Hr) as Hrange.
  rewrite (scan_all_all_nonzero _ _ (wf_buckets _ _ Hwf) Hrange) in H.
  rewrite (Test_eq a c x (wf_hash _ _ Hwf) Hr).
  destruct (all_nonzero _ _) as [[|]|]; simpl in *; [|congruence|done].
  destruct (Increment_all _ _ (-1)); simpl in H; congruence.
Qed.

Lemma TestAndRemove_answers_as_Test_witness :
  let c := fresh 5 3 4 in
  let c1 := set_count (set_buckets c (mkBuckets 5 4 [0; 1; 1; 1; 0])) 1 in
  let c2 := set_indexBuffer c1 [2; 1; 0] in
  filter_wf arch64 c1 /\
  TestAndRemove arch64 c1 (bytes "b") = Some (false, c2) /\
  Test arch64 c1 (bytes "b") = Some (false, c1).
Proof.
  intros c c1 c2.
  assert (Hwf : filter_wf arch64 c1).
  { apply (Add_wf arch64 c c1 (bytes "a")).
    - apply fresh_wf; lia.
    - vm_compute; reflexivity. }
  assert (HR : TestAndRemove arch64 c1 (bytes "b") = Some (false, c2))
    by (vm_compute; reflexivity).
  split; [exact Hwf|]. split; [exact HR|].
  exact (TestAndRemove_answers_as_Test arch64 c1 c2 (bytes "b") false Hwf HR).
Defined.

(** ** [Reset] and the scratch buffer *)

(** X11.  [Reset] restores the filter to its original state: after any run
    of operations on a filter just constructed, [Reset] gives back the
    constructed filter, but for the scratch buffer of indices, which keeps
    what the last [TestAndRemove] staged. *)
Theorem Reset_restores_construction (a : arch) {float64 : Type}
    (OptimalM : Z -> float64 -> Z) (OptimalK : float64 -> Z)
    (n width : Z) (fpRate : float64)
    (os : list op) (tr : list (op * option bool)) (c' : CountingBloomFilter) :
  0 <= OptimalM n fpRate -> 0 <= OptimalK fpRate -> 0 <= width ->
  run a (NewCountingBloomFilter OptimalM OptimalK n width fpRate) os
  = Some (tr, c') ->
  Reset c'
  = set_indexBuffer (NewCountingBloomFilter OptimalM OptimalK n width fpRate)
      (indexBuffer c').
Proof.
  intros Hm Hk Hw Hrun.
  set (c0 := NewCountingBloomFilter OptimalM OptimalK n width fpRate) in *.
  assert (Hwf0 : filter_wf a c0) by by apply NewCountingBloomFilter_wf.
  pose proof (run_wf _ _ _ _ _ Hwf0 Hrun) as Hwf'.
  assert (Hframe : m c' = m c0 /\ k c' = k c0 /\ b c' = b c0).
  { clearbody c0. clear Hwf0 Hwf'. revert c0 tr Hrun.
    induction os as [|o os IH]; intros c0 tr; simpl.
    - by intros [= <- <-].
    - destruct (call a c0 o) as [[r c1]|] eqn:Ecall; simpl; [|done].
      destruct (run a c1 os) as [[tr' c2]|] eqn:Erun; simpl; [|done].
      intros [= <- <-].
      destruct (call_frame _ _ _ _ _ Ecall) as (? & ? & ?).
      destruct (IH _ _ Erun) as (? & ? & ?). split_and!; congruence. }
  destruct Hframe as (Hm' & Hk' & Hb').
  destruct Hwf' as [_ Hcm Hcb Hh _ _ _].
  unfold Reset, Buckets_Reset, set_count, set_buckets, set_indexBuffer.
  simpl. rewrite Hcm, Hcb, Hh, Hm', Hk', Hb'. done.
Qed.

Lemma Reset_restores_construction_witness :
  let os := [OpAdd (bytes "ab"); OpTestAndRemove (bytes "a")] in
  let c' := set_count
              (set_buckets (set_indexBuffer (fresh 2 2 4) [0; 0])
                 (mkBuckets 2 4 [0; 1])) 0 in
  run arch64 (fresh 2 2 4) os
  = Some ([(OpAdd (bytes "ab"), None);
           (OpTestAndRemove (bytes "a"), Some true)], c') /\
  Reset c' = set_indexBuffer (fresh 2 2 4) (indexBuffer c').
Proof.
  intros os c'.
  assert (Hrun : run arch64 (fresh 2 2 4) os
                 = Some ([(OpAdd (bytes "ab"), None);
                          (OpTestAndRemove (bytes "a"), Some true)], c'))
    by (vm_compute; reflexivity).
  split; [exact Hrun|].
  refine (Reset_restores_construction arch64 (fun _ _ => 2) (fun _ => 2)
            0 4 tt os _ c' _ _ _ Hrun); simpl; lia.
Defined.

(** X12.  What the scratch buffer holds before a call has no effect:
    [TestAndRemove] writes each of its [k] entries before it reads it, so
    the result and the filter after the call are the same whatever the
    buffer held. *)
Theorem TestAndRemove_ignores_scratch (a : arch) (c : CountingBloomFilter)
    (buf : list Z) (x : list byte) :
  filter_wf a c ->
  length buf = length (indexBuffer c) ->
  TestAndRemove a (set_indexBuffer c buf) x = TestAndRemove a c x.
Proof.
  intros Hwf Hlen. pose proof (wf_hash _ _ Hwf) as Hh.
  pose proof (wf_indexBuffer _ _ Hwf) as Hbuf.
  assert (Hcase : runnable c \/ (m c = 0 /\ exists n, Z.to_nat (k c) = S n)).
  { destruct (Z.eq_dec (m c) 0) as [Hm|Hm]; [|by left; left].
    destruct (Z.to_nat (k c)) as [|n] eqn:Hk; [left; by right|right; eauto]. }
  destruct Hcase as [Hr|(Hm & n & Hk)].
  - rewrite (TestAndRemove_eq a c x Hh Hr Hbuf).
    by rewrite (TestAndRemove_eq a (set_indexBuffer c buf) x Hh Hr)
      by (simpl; congruence).
  - unfold TestAndRemove. rewrite !hashKernel_digest by done. simpl.
    rewrite Hk, Hm. cbn [TestAndRemove_scan].
    by rewrite !bucket_index_zero.
Qed.

Lemma TestAndRemove_ignores_scratch_witness :
  let c := fresh 2 2 4 in
  let c1 := set_count (set_buckets c (mkBuckets 2 4 [1; 1])) 1 in
  filter_wf arch64 c1 /\
  length [7; 9] = length (indexBuffer c1) /\
  TestAndRemove arch64 (set_indexBuffer c1 [7; 9]) (bytes "a")
  = TestAndRemove arch64 c1 (bytes "a").
Proof.
  intros c c1.
  assert (Hwf : filter_wf arch64 c1).
  { apply (Add_wf arch64 c c1 (bytes "ab")).
    - apply fresh_wf; lia.
    - vm_compute; reflexivity. }
  assert (Hlen : length [7; 9] = length (indexBuffer c1)) by reflexivity.
  split; [exact Hwf|]. split; [exact Hlen|].
  exact (TestAndRemove_ignores_scratch arch64 c1 [7; 9] (bytes "a") Hwf Hlen).
Defined.

(** ** Order of insertions *)

Lemma occurrences_app (j : Z) (l1 l2 : list Z) :
  occurrences j (l1 ++ l2) = occurrences j l1 + occurrences j l2.
Proof. unfold occurrences. rewrite filter_app, length_app. lia. Qed.

Lemma Increment_all_app (bs : Buckets) (l1 l2 : list Z) (delta : Z) :
  Increment_all bs (l1 ++ l2) delta
  = (bs' ← Increment_all bs l1 delta; Increment_all bs' l2 delta).
Proof.
  revert bs. induction l1 as [|i l1 IH]; intros bs; simpl; [done|].
  destruct (Buckets_Increment bs i delta); simpl; [apply IH|done].
Qed.

(** The buckets after a list of increments depend on how often each index
    occurs, not on the order. *)
Lemma Increment_all_occurrences (bs : Buckets) (l1 l2 : list Z) :
  Buckets_wf bs ->
  Forall (fun i => 0 <= i < bucketCount bs) l1 ->
  Forall (fun i => 0 <= i < bucketCount bs) l2 ->
  (forall j, occurrences j l1 = occurrences j l2) ->
  Increment_all bs l1 1 = Increment_all bs l2 1.
Proof.
  intros Hwf H1 H2 Hocc.
  destruct (Increment_all_is_Some bs l1 1 Hwf H1) as [bs1 E1].
  destruct (Increment_all_is_Some bs l2 1 Hwf H2) as [bs2 E2].
  rewrite E1, E2. f_equal.
  destruct (Increment_all_shape _ _ _ _ E1) as (Hc1 & Hw1 & _).
  destruct (Increment_all_shape _ _ _ _ E2) as (Hc2 & Hw2 & _).
  apply Buckets_ext; [by eapply Increment_all_wf|by eapply Increment_all_wf
                     |congruence|congruence|].
  intros j Hj. rewrite Hc1 in Hj.
  destruct (Buckets_Get_in_range bs j Hwf Hj) as (v & Hv & _).
  rewrite (Buckets_Get_Increment_all_up _ _ _ _ _ Hwf E1 Hv).
  rewrite (Buckets_Get_Increment_all_up _ _ _ _ _ Hwf E2 Hv).
  by rewrite Hocc.
Qed.

(** X13.  Insertions commute: [Add] of [x] then of [y] ends in the same
    filter as [Add] of [y] then of [x], saturated counters included. *)
Theorem Add_commutes (a : arch) (c : CountingBloomFilter) (x y : list byte) :
  filter_wf a c ->
  (c1 ← Add a c x; Add a c1 y) = (c1 ← Add a c y; Add a c1 x).
Proof.
  intros Hwf. pose proof (wf_hash _ _ Hwf) as Hh.
  assert (Hcase : runnable c \/ (m c = 0 /\ exists n, Z.to_nat (k c) = S n)).
  { destruct (Z.eq_dec (m c) 0) as [Hm|Hm]; [|by left; left].
    destruct (Z.to_nat (k c)) as [|n] eqn:Hk; [left; by right|right; eauto]. }
  destruct Hcase as [Hr|(Hm & n & Hk)].
  - pose proof (indices_in_range a c x Hwf Hr) as Hx.
    pose proof (indices_in_range a c y Hwf Hr) as Hy.
    pose proof (wf_buckets _ _ Hwf) as Hbwf.
    assert (Hswap : Increment_all (buckets c)
                      (indices a c x ++ indices a c y) 1
                    = Increment_all (buckets c)
                        (indices a c y ++ indices a c x) 1).
    { apply Increment_all_occurrences; [done| | |].
      - apply Forall_app; by split.
      - apply Forall_app; by split.
      - intros j. rewrite !occurrences_app. lia. }
    rewrite !Increment_all_app in Hswap.
    rewrite (Add_eq a c x Hh Hr), (Add_eq a c y Hh Hr).
    destruct (Increment_all (buckets c) (indices a c x) 1) as [bsx|];
      destruct (Increment_all (buckets c) (indices a c y) 1) as [bsy|];
      simpl in *.
    + rewrite (Add_eq a (set_count (set_buckets c bsx) _) y Hh Hr).
      rewrite (Add_eq a (set_count (set_buckets c bsy) _) x Hh Hr).
      simpl. change (indices a (set_count (set_buckets c bsx) _) y)
        with (indices a c y).
      change (indices a (set_count (set_buckets c bsy) _) x)
        with (indices a c x).
      rewrite Hswap. by destruct (Increment_all bsy _ 1).
    + rewrite (Add_eq a (set_count (set_buckets c bsx) _) y Hh Hr). simpl.
      change (indices a (set_count (set_buckets c bsx) _) y)
        with (indices a c y).
      by rewrite Hswap.
    + rewrite (Add_eq a (set_count (set_buckets c bsy) _) x Hh Hr). simpl.
      change (indices a (set_count (set_buckets c bsy) _) x)
        with (indices a c x).
      by rewrite <- Hswap.
    + done.
  - unfold Add. rewrite !hashKernel_digest by done. simpl.
    rewrite Hk, Hm. cbn [Add_loop]. by rewrite !bucket_index_zero.
Qed.

Lemma Add_commutes_witness :
  let c := fresh 5 3 4 in
  filter_wf arch64 c /\
  (c1 ← Add arch64 c (bytes "a"); Add arch64 c1 (bytes "b"))
  = (c1 ← Add arch64 c (bytes "b"); Add arch64 c1 (bytes "a")).
Proof.
  intros c.
  assert (Hwf : filter_wf arch64 c) by (apply fresh_wf; lia).
  split; [exact Hwf|].
  exact (Add_commutes arch64 c (bytes "a") (bytes "b") Hwf).
Defined.

(** X14.  With at least one bit a bucket, [Test] of an element returns true
    right after its [TestAndAdd], whatever [TestAndAdd] returned. *)
Theorem TestAndAdd_then_Test (a : arch) (c c' : CountingBloomFilter)
    (x : list byte) (r : bool) :
  filter_wf a c -> 0 < b c ->
  TestAndAdd a c x = Some (r, c') ->
  Test a c' x = Some (true, c').
Proof.
  intros Hwf Hb H.
  pose proof (TestAndAdd_runnable _ _ _ _ _ H) as Hr.
  pose proof (TestAndAdd_wf _ _ _ _ _ Hwf H) as Hwf'.
  rewrite (TestAndAdd_eq a c x (wf_hash _ _ Hwf) Hr) in H.
  rewrite test_add_all_eq in H by apply Hwf.
  destruct (all_nonzero _ _) as [r'|]; simpl in H; [|done].
  destruct (Increment_all _ _ 1) as [bs|] eqn:Hbs; simpl in H; [|done].
  injection H as <- <-.
  apply present_Test; [done|exact Hr|].
  intros j Hj. simpl. rewrite (indices_same a c) in Hj by done.
  eapply Increment_all_nonzero; [apply Hwf| |exact Hbs|exact Hj].
  by rewrite (wf_b _ _ Hwf).
Qed.

Lemma TestAndAdd_then_Test_witness :
  let c := fresh 5 3 4 in
  let c1 := set_count (set_buckets c (mkBuckets 5 4 [0; 1; 1; 1; 0])) 1 in
  filter_wf arch64 c /\ 0 < b c /\
  TestAndAdd arch64 c (bytes "a") = Some (false, c1) /\
  Test arch64 c1 (bytes "a") = Some (true, c1).
Proof.
  intros c c1.
  assert (Hwf : filter_wf arch64 c) by (apply fresh_wf; lia).
  assert (Hb : 0 < b c) by reflexivity.
  assert (H : TestAndAdd arch64 c (bytes "a") = Some (false, c1))
    by (vm_compute; reflexivity).
  split; [exact Hwf|]. split; [exact Hb|]. split; [exact H|].
  exact (TestAndAdd_then_Test arch64 c c1 (bytes "a") false Hwf Hb H).
Defined.

(** ** The constructed filter *)

(** X15.  A filter just constructed, with at least one bucket and one
    round, is empty: its count is zero, [Test] returns false for every
    element, and [TestAndRemove] returns false and leaves the count at
    zero. *)
Theorem constructed_filter_is_empty (a : arch) {float64 : Type}
    (OptimalM : Z -> float64 -> Z) (OptimalK : float64 -> Z)
    (n width : Z) (fpRate : float64) (x : list byte) :
  0 < OptimalM n fpRate -> 0 < OptimalK fpRate -> 0 <= width ->
  let c := NewCountingBloomFilter OptimalM OptimalK n width fpRate in
  Count c = 0 /\
  Test a c x = Some (false, c) /\
  exists c', TestAndRemove a c x = Some (false, c') /\ Count c' = 0.
Proof.
  intros Hm Hk Hw c.
  assert (Hwf : filter_wf a c) by (apply NewCountingBloomFilter_wf; lia).
  assert (Hr : runnable c) by (left; simpl; lia).
  pose proof (indices_in_range a c x Hwf Hr) as Hrange.
  assert (Hall : all_nonzero (buckets c) (indices a c x) = Some false).
  { unfold indices in *. simpl in *.
    destruct (Z.to_nat (OptimalK fpRate)) as [|n'] eqn:Hn; [lia|].
    rewrite indices_from_S in *. simpl.
    apply Forall_cons in Hrange as [Hi _].
    destruct (Buckets_Get_in_range _ _ (wf_buckets _ _ Hwf) Hi)
      as (v & Hv & _).
    simpl in Hv. rewrite Hv.
    change (NewBuckets (OptimalM n fpRate) width)
      with (Buckets_Reset (NewBuckets (OptimalM n fpRate) width)) in Hv.
    apply Buckets_Get_Reset in Hv as ->. done. }
  split; [done|]. split.
  - rewrite (Test_eq a c x (wf_hash _ _ Hwf) Hr). by rewrite Hall.
  - rewrite (TestAndRemove_eq a c x (wf_hash _ _ Hwf) Hr
               (wf_indexBuffer _ _ Hwf)).
    rewrite (scan_all_all_nonzero _ _ (wf_buckets _ _ Hwf) Hrange), Hall.
    simpl. by eexists.
Qed.

Lemma constructed_filter_is_empty_witness :
  let c := NewDefaultCountingBloomFilter (float64 := unit)
             (fun _ _ => 9586) (fun _ => 7) 1000 tt in
  Count c = 0 /\
  Test arch64 c (bytes "a") = Some (false, c) /\
  exists c', TestAndRemove arch64 c (bytes "a") = Some (false, c') /\
             Count c' = 0.
Proof.
  refine (constructed_filter_is_empty arch64 (fun _ _ => 9586) (fun _ => 7)
            1000 4 tt (bytes "a") _ _ _); simpl; lia.
Defined.
